(** * vllm/v1/engine/logprobs.py: the per-request logprobs processor

    A shallow embedding of [LogprobsProcessor] and of its methods, and the
    properties of its specification.

    Conventions of the embedding.
    - A Python [int] is a [Z]; a Python [float] is a rational [Q] with exact
      arithmetic, compared with [==] ([Qeq]).  Rounding is not modelled.
    - A [dict[int, Logprob]] is a [gmap Z Logprob]: a later insertion under
      a key that is present replaces the value.  The iteration order of the
      dict is not modelled.
    - A method mutates [self] and may raise: it is a function from the
      processor to an outcome and the processor it leaves behind.  When a
      method raises, the mutations made before the exception stay. *)

From Stdlib Require Import QArith.
From stdpp Require Import base numbers option list gmap strings.

Set Default Proof Using "Type".

(** ** Exceptions and the method monad *)

Inductive exn : Type :=
  | AssertionError
  | IndexError
  | ValueError
  | TypeError
  | AttributeError
  | ZeroDivisionError.

Inductive result (A : Type) : Type :=
  | Ok (a : A)
  | Raise (e : exn).
Arguments Ok {A} a.
Arguments Raise {A} e.

Definition is_ok {A : Type} (r : result A) : bool :=
  match r with Ok _ => true | Raise _ => false end.

(** ** Values of the data model *)

(** [vllm.sequence.Logprob]. *)
Record Logprob : Type := mkLogprob {
  logprob : Q;
  rank : Z;
  decoded_token : option string;
}.

(** The behaviour of [convert_ids_list_to_tokens] for one tokenizer: the
    list of token ids to the list of their display strings. *)
Definition AnyTokenizer : Type := list Z → list string.

(** An [Iterable[Optional[str]]] as the processor builds it: the endless
    [NONES = itertools.repeat(None)], or a list of decoded strings. *)
Inductive decoded_iter : Type :=
  | NONES
  | Tokens (toks : list string).

(** [collections.deque] with a [maxlen]. *)
Record deque : Type := mkDeque {
  maxlen : Z;
  items : list Q;
}.

Definition deque_new (n : Z) : result deque :=
  if decide (n < 0)%Z then Raise ValueError else Ok (mkDeque n []).

Definition deque_len (d : deque) : Z := Z.of_nat (length (items d)).

(** [d.append(x)]: a bounded deque that is full discards from the left. *)
Definition deque_append (x : Q) (d : deque) : deque :=
  let l := items d ++ [x] in
  if decide (maxlen d < Z.of_nat (length l))%Z
  then mkDeque (maxlen d) (tail l)
  else mkDeque (maxlen d) l.

(** [d.popleft()]: raises [IndexError] on an empty deque. *)
Definition deque_popleft (d : deque) : result (Q * deque) :=
  match items d with
  | [] => Raise IndexError
  | x :: l => Ok (x, mkDeque (maxlen d) l)
  end.

(** [LogprobsLists]: top-k token ids, logprobs and sampled-token ranks. *)
Record LogprobsLists : Type := mkLogprobsLists {
  logprob_token_ids : list (list Z);
  ll_logprobs : list (list Q);
  sampled_token_ranks : list Z;
}.

(** [LogprobsTensors]: a two-dimensional tensor is the list of its rows, a
    one-dimensional tensor the list of its entries. *)
Record LogprobsTensors : Type := mkLogprobsTensors {
  lt_logprob_token_ids : list (list Z);
  lt_logprobs : list (list Q);
  selected_token_ranks : list Z;
}.

(** The fields of [EngineCoreOutput] that the processor reads. *)
Record EngineCoreOutput : Type := mkEngineCoreOutput {
  new_logprobs : option LogprobsLists;
  new_prompt_logprobs_tensors : option LogprobsTensors;
}.

(** [SamplingParams.extra_args], a [dict[str, Any]], at the three keys the
    processor reads; [None] is a key that is not in the dict. *)
Record ExtraArgs : Type := mkExtraArgs {
  enable_conf : option bool;
  window_size : option Z;
  threshold : option Q;
}.

Record SamplingParams : Type := mkSamplingParams {
  sp_logprobs : option Z;
  sp_prompt_logprobs : option Z;
  extra_args : option ExtraArgs;
}.

Record EngineCoreRequest : Type := mkEngineCoreRequest {
  sampling_params : option SamplingParams;
}.

(** ** The processor *)

Record LogprobsProcessor : Type := mkLogprobsProcessor {
  conf_grouped : Q;
  conf_list : option (list Q);
  conf_group_list : option deque;
  conf_group_size : Z;
  conf_threshold : option Q;
  tokenizer : option AnyTokenizer;
  logprobs : option (list (gmap Z Logprob));
  prompt_logprobs : option (list (option (gmap Z Logprob)));
  cumulative_logprob : option Q;
  num_logprobs : option Z;
  num_prompt_logprobs : option Z;
}.

Definition set_conf_grouped (v : Q) (p : LogprobsProcessor) :=
  mkLogprobsProcessor v (conf_list p) (conf_group_list p)
    (conf_group_size p) (conf_threshold p) (tokenizer p) (logprobs p)
    (prompt_logprobs p) (cumulative_logprob p) (num_logprobs p)
    (num_prompt_logprobs p).

Definition set_conf_list (v : option (list Q)) (p : LogprobsProcessor) :=
  mkLogprobsProcessor (conf_grouped p) v (conf_group_list p)
    (conf_group_size p) (conf_threshold p) (tokenizer p) (logprobs p)
    (prompt_logprobs p) (cumulative_logprob p) (num_logprobs p)
    (num_prompt_logprobs p).

Definition set_conf_group_list (v : option deque) (p : LogprobsProcessor) :=
  mkLogprobsProcessor (conf_grouped p) (conf_list p) v
    (conf_group_size p) (conf_threshold p) (tokenizer p) (logprobs p)
    (prompt_logprobs p) (cumulative_logprob p) (num_logprobs p)
    (num_prompt_logprobs p).

Definition set_logprobs (v : option (list (gmap Z Logprob)))
    (p : LogprobsProcessor) :=
  mkLogprobsProcessor (conf_grouped p) (conf_list p) (conf_group_list p)
    (conf_group_size p) (conf_threshold p) (tokenizer p) v
    (prompt_logprobs p) (cumulative_logprob p) (num_logprobs p)
    (num_prompt_logprobs p).

Definition set_prompt_logprobs (v : option (list (option (gmap Z Logprob))))
    (p : LogprobsProcessor) :=
  mkLogprobsProcessor (conf_grouped p) (conf_list p) (conf_group_list p)
    (conf_group_size p) (conf_threshold p) (tokenizer p) (logprobs p)
    v (cumulative_logprob p) (num_logprobs p) (num_prompt_logprobs p).

Definition set_cumulative_logprob (v : option Q) (p : LogprobsProcessor) :=
  mkLogprobsProcessor (conf_grouped p) (conf_list p) (conf_group_list p)
    (conf_group_size p) (conf_threshold p) (tokenizer p) (logprobs p)
    (prompt_logprobs p) v (num_logprobs p) (num_prompt_logprobs p).

(** A method: the outcome and the processor left behind. *)
Definition M (A : Type) : Type :=
  LogprobsProcessor → result A * LogprobsProcessor.

Definition ret {A : Type} (a : A) : M A := λ p, (Ok a, p).
Definition raise {A : Type} (e : exn) : M A := λ p, (Raise e, p).
Definition bind {A B : Type} (m : M A) (k : A → M B) : M B :=
  λ p, match m p with
       | (Ok a, p') => k a p'
       | (Raise e, p') => (Raise e, p')
       end.
Definition get : M LogprobsProcessor := λ p, (Ok p, p).
Definition modify (f : LogprobsProcessor → LogprobsProcessor) : M unit :=
  λ p, (Ok tt, f p).
Definition lift {A : Type} (r : result A) : M A := λ p, (r, p).
Definition assert (b : bool) : M unit :=
  if b then ret tt else raise AssertionError.

Global Instance M_ret : MRet M := @ret.
Global Instance M_bind : MBind M := λ A B k m, bind m k.

(** [for x in l: body(x)]. *)
Fixpoint for_each {A : Type} (body : A → M unit) (l : list A) : M unit :=
  match l with
  | [] => ret tt
  | x :: l' => body x ;; for_each body l'
  end.

(** ** Position-record construction *)

(** [range(lo, hi)]. *)
Definition range (lo hi : Z) : list Z := seqZ lo (hi - lo).

(** [zip(ids, lps, ranks, decoded)]: stops at the shortest argument. *)
Fixpoint zip4 (ids : list Z) (lps : list Q) (ranks : list Z)
    (decoded : decoded_iter) : list (Z * Q * Z * option string) :=
  match ids, lps, ranks with
  | i :: ids', l :: lps', r :: ranks' =>
      match decoded with
      | NONES => (i, l, r, None) :: zip4 ids' lps' ranks' NONES
      | Tokens [] => []
      | Tokens (t :: toks) =>
          (i, l, r, Some t) :: zip4 ids' lps' ranks' (Tokens toks)
      end
  | _, _, _ => []
  end.

(** The dict comprehension: the entries are inserted from left to right. *)
Definition dict_of (entries : list (Z * Q * Z * option string))
    : gmap Z Logprob :=
  foldl (λ d e, let '(i, l, r, t) := e in <[i := mkLogprob l r t]> d)
        ∅ entries.

Definition _make_logprob_dict (lps : list Q) (logprob_token_ids : list Z)
    (decoded_tokens : decoded_iter) (rank : Z) (num_logprobs : Z)
    : gmap Z Logprob :=
  let num_logprobs :=
    if decide (num_logprobs = -1)%Z then Z.of_nat (length lps)
    else num_logprobs in
  let topk_ranks := range 1 (num_logprobs + 1) in
  let ranks := rank :: topk_ranks in
  dict_of (zip4 logprob_token_ids lps ranks decoded_tokens).

(** ** Python primitives on lists and floats *)

(** [l[i]] for a non-negative [i]. *)
Definition index {A : Type} (l : list A) (i : nat) : result A :=
  match l !! i with
  | Some x => Ok x
  | None => Raise IndexError
  end.

(** [l[a:b]] for [0 <= a <= b]. *)
Definition slice {A : Type} (l : list A) (a b : nat) : list A :=
  take (b - a) (drop a l).

(** [sum(l)]: the additions go from left to right, starting from 0. *)
Definition sum (l : list Q) : Q := foldl Qplus 0%Q l.

(** [a / b]. *)
Definition truediv (a b : Q) : result Q :=
  if Qeq_bool b 0 then Raise ZeroDivisionError else Ok (a / b)%Q.

(** [a < b] on floats. *)
Definition lt_float (a b : Q) : bool :=
  if Qlt_le_dec a b then true else false.

(** [zip(a, b, c)]. *)
Fixpoint zip3 {A B C : Type} (a : list A) (b : list B) (c : list C)
    : list (A * B * C) :=
  match a, b, c with
  | x :: a', y :: b', z :: c' => (x, y, z) :: zip3 a' b' c'
  | _, _, _ => []
  end.

(** The shape of a two-dimensional tensor given by its rows.  The number of
    columns of a tensor without rows is not recorded; the processor reads it
    only inside a loop over the rows. *)
Definition shape {A : Type} (t : list (list A)) : nat * nat :=
  (length t, match t with r :: _ => length r | [] => 0 end).

(** ** Construction *)

Definition from_new_request (tokenizer : option AnyTokenizer)
    (request : EngineCoreRequest) : result LogprobsProcessor :=
  match sampling_params request with
  | None => Raise AssertionError
  | Some sp =>
      let num_logprobs := sp_logprobs sp in
      let num_prompt_logprobs := sp_prompt_logprobs sp in
      let mk conf_group_size conf_threshold conf_grouped conf_group_list
             conf_list :=
        mkLogprobsProcessor conf_grouped conf_list conf_group_list
          conf_group_size conf_threshold tokenizer
          (match num_logprobs with None => None | Some _ => Some [] end)
          (match num_prompt_logprobs with
           | None => None
           | Some _ => Some [None]
           end)
          (match num_logprobs with None => None | Some _ => Some 0%Q end)
          num_logprobs num_prompt_logprobs in
      match extra_args sp with
      | Some ea =>
          if default false (enable_conf ea) then
            let conf_group_size := default 2048%Z (window_size ea) in
            let conf_threshold := default 17%Q (threshold ea) in
            match deque_new conf_group_size with
            | Raise e => Raise e
            | Ok conf_group_list =>
                Ok (mk conf_group_size (Some conf_threshold) 0%Q
                       (Some conf_group_list) (Some []))
            end
          else Ok (mk (-1)%Z None 0%Q None None)
      | None => Ok (mk (-1)%Z None 0%Q None None)
      end
  end.

(** ** Sample logprobs *)

(** The confidence of one token: [-sum(logprobs[1:]) / len(logprobs[1:])],
    or [0.0] when there is no alternative. *)
Definition new_conf_of (lps : list Q) : result Q :=
  if decide (1 < length lps)
  then truediv (- sum (drop 1 lps))%Q (inject_Z (Z.of_nat (length (drop 1 lps))))
  else Ok 0%Q.

(** The [if self.conf_list is not None:] block of the loop body. *)
Definition update_conf (lps : list Q) : M unit :=
  p ← get;
  match conf_list p with
  | None => ret tt
  | Some cl =>
      new_conf ← lift (new_conf_of lps);
      modify (set_conf_list (Some (cl ++ [new_conf])));;
      p ← get;
      match conf_group_list p with
      | None => raise TypeError
      | Some d =>
          if decide (deque_len d < conf_group_size p)%Z then
            modify (set_conf_group_list (Some (deque_append new_conf d)));;
            modify (λ p, set_conf_grouped (conf_grouped p + new_conf)%Q p)
          else
            '(x, d') ← lift (deque_popleft d);
            modify (set_conf_group_list (Some d'));;
            modify (λ p, set_conf_grouped (conf_grouped p - x)%Q p);;
            modify (set_conf_group_list (Some (deque_append new_conf d')));;
            modify (λ p, set_conf_grouped (conf_grouped p + new_conf)%Q p)
      end
  end.

(** [NONES if self.tokenizer is None else
    convert_ids_list_to_tokens(self.tokenizer, token_ids)]. *)
Definition decode_or_nones (tokenizer : option AnyTokenizer)
    (token_ids : list Z) : decoded_iter :=
  match tokenizer with
  | None => NONES
  | Some tk => Tokens (tk token_ids)
  end.

(** The body of the loop of [_update_sample_logprobs]. *)
Definition sample_token (item : Z * list Q * list Z) : M unit :=
  let '(rank, lps, token_ids) := item in
  p ← get;
  let decoded_tokens := decode_or_nones (tokenizer p) token_ids in
  sampled_token_logprob ← lift (index lps 0);
  match cumulative_logprob p with
  | None => raise TypeError
  | Some c =>
      modify (set_cumulative_logprob (Some (c + sampled_token_logprob)%Q))
  end;;
  match logprobs p, num_logprobs p with
  | None, _ => raise AttributeError
  | Some _, None => raise TypeError
  | Some l, Some n =>
      modify (set_logprobs
        (Some (l ++ [_make_logprob_dict lps token_ids decoded_tokens rank n])))
  end;;
  update_conf lps.

Definition _update_sample_logprobs (logprobs_lists : LogprobsLists) : M unit :=
  p ← get;
  assert (bool_decide (is_Some (num_logprobs p)));;
  assert (bool_decide (is_Some (logprobs p)));;
  assert (bool_decide (is_Some (cumulative_logprob p)));;
  let token_ids_lst := logprob_token_ids logprobs_lists in
  let logprobs_lst := ll_logprobs logprobs_lists in
  let ranks_lst := sampled_token_ranks logprobs_lists in
  for_each sample_token (zip3 ranks_lst logprobs_lst token_ids_lst).

(** ** Prompt logprobs *)

(** The body of the loop of [_update_prompt_logprobs]. *)
Definition prompt_position (decoded_tokens : option (list string))
    (num_logprobs : nat) (prompt_logprobs_rows : list (list Q))
    (token_ids : list (list Z)) (prompt_token_ranks : list Z) (pos : nat)
    : M unit :=
  let offset := pos * num_logprobs in
  let offset_end := offset + num_logprobs in
  let decoded_tokens_for_pos :=
    match decoded_tokens with
    | None => NONES
    | Some toks => Tokens (slice toks offset offset_end)
    end in
  p ← get;
  match prompt_logprobs p with
  | None => raise AttributeError
  | Some buf =>
      lps ← lift (index prompt_logprobs_rows pos);
      ids ← lift (index token_ids pos);
      rank ← lift (index prompt_token_ranks pos);
      match num_prompt_logprobs p with
      | None => raise TypeError
      | Some n =>
          modify (set_prompt_logprobs
            (Some (buf ++
               [Some (_make_logprob_dict lps ids decoded_tokens_for_pos
                        rank n)])))
      end
  end.

Definition _update_prompt_logprobs
    (prompt_logprobs_tensors : LogprobsTensors) : M unit :=
  p ← get;
  assert (bool_decide (is_Some (num_prompt_logprobs p)));;
  assert (bool_decide (is_Some (prompt_logprobs p)));;
  let token_ids := lt_logprob_token_ids prompt_logprobs_tensors in
  let lps := lt_logprobs prompt_logprobs_tensors in
  let ranks := selected_token_ranks prompt_logprobs_tensors in
  let decoded_tokens :=
    match tokenizer p with
    | None => None
    | Some tk => Some (tk (concat token_ids))
    end in
  let '(num_prompt_tokens, num_logprobs) := shape lps in
  for_each (prompt_position decoded_tokens num_logprobs lps token_ids ranks)
           (seq 0 num_prompt_tokens).

(** [pop_prompt_logprobs]: a list is true when it is not empty. *)
Definition pop_prompt_logprobs
    : M (option (list (option (gmap Z Logprob)))) :=
  p ← get;
  let plp := prompt_logprobs p in
  match plp with
  | Some (_ :: _) => modify (set_prompt_logprobs (Some []))
  | _ => ret tt
  end;;
  ret plp.

Definition update_from_output (output : EngineCoreOutput) : M unit :=
  match new_logprobs output with
  | Some ll => _update_sample_logprobs ll
  | None => ret tt
  end;;
  match new_prompt_logprobs_tensors output with
  | Some lt => _update_prompt_logprobs lt
  | None => ret tt
  end.

(** ** The confidence stop *)

Definition check_conf_stop (p : LogprobsProcessor) : result bool :=
  match conf_group_list p with
  | None => Ok false
  | Some d =>
      if decide (deque_len d = 0)%Z then Ok false
      else if decide (conf_group_size p ≤ deque_len d)%Z then
        match truediv (conf_grouped p) (inject_Z (deque_len d)) with
        | Raise e => Raise e
        | Ok avg =>
            match conf_threshold p with
            | None => Raise TypeError
            | Some t => Ok (lt_float avg t)
            end
        end
      else Ok false
  end.

(** ** Callers *)

(** Successive calls of one method: each call starts from the processor
    the call before it left behind, whatever its outcome was. *)
Fixpoint calls {A B : Type} (f : A → M B) (args : list A)
    (p : LogprobsProcessor) : list (result B) * LogprobsProcessor :=
  match args with
  | [] => ([], p)
  | a :: args' =>
      let '(r, p') := f a p in
      let '(rs, p'') := calls f args' p' in
      (r :: rs, p'')
  end.

(** The processors a request can be in: built by [from_new_request] and
    taken from there by the methods that mutate it. *)
Inductive reachable : LogprobsProcessor → Prop :=
  | reach_new tk req p :
      from_new_request tk req = Ok p → reachable p
  | reach_update out p :
      reachable p → reachable (update_from_output out p).2
  | reach_sample ll p :
      reachable p → reachable (_update_sample_logprobs ll p).2
  | reach_prompt lt p :
      reachable p → reachable (_update_prompt_logprobs lt p).2
  | reach_pop p :
      reachable p → reachable (pop_prompt_logprobs p).2.

(** ** Well-formed processors *)

Definition window_ok (p : LogprobsProcessor) (d : deque) : Prop :=
  maxlen d = conf_group_size p
  ∧ (deque_len d ≤ conf_group_size p)%Z
  ∧ (conf_grouped p == sum (items d))%Q.

Definition conf_wf (p : LogprobsProcessor) : Prop :=
  (is_Some (conf_list p) ↔ is_Some (conf_group_list p))
  ∧ (is_Some (conf_threshold p) ↔ is_Some (conf_group_list p))
  ∧ ∀ d, conf_group_list p = Some d → window_ok p d.

Definition sample_wf (p : LogprobsProcessor) : Prop :=
  (is_Some (logprobs p) ↔ is_Some (num_logprobs p))
  ∧ (is_Some (cumulative_logprob p) ↔ is_Some (num_logprobs p)).

Definition prompt_wf (p : LogprobsProcessor) : Prop :=
  is_Some (prompt_logprobs p) ↔ is_Some (num_prompt_logprobs p).

Definition wf (p : LogprobsProcessor) : Prop :=
  conf_wf p ∧ sample_wf p ∧ prompt_wf p.

(** The configuration of a request does not change after construction. *)
Definition same_config (p q : LogprobsProcessor) : Prop :=
  conf_group_size q = conf_group_size p
  ∧ conf_threshold q = conf_threshold p
  ∧ tokenizer q = tokenizer p
  ∧ num_logprobs q = num_logprobs p
  ∧ num_prompt_logprobs q = num_prompt_logprobs p.

(** What the confidence block of the loop leaves alone. *)
Definition frame_conf (p q : LogprobsProcessor) : Prop :=
  same_config p q
  ∧ logprobs q = logprobs p
  ∧ prompt_logprobs q = prompt_logprobs p
  ∧ cumulative_logprob q = cumulative_logprob p.

(** A step from [p] to [q] keeps the processor well formed and its
    configuration fixed. *)
Definition preserves (p q : LogprobsProcessor) : Prop :=
  wf p → wf q ∧ same_config p q.

(** From [p] to [q] the prompt buffer only grows at its end. *)
Definition buffer_grows (p q : LogprobsProcessor) : Prop :=
  ∀ buf, prompt_logprobs p = Some buf →
         ∃ more, prompt_logprobs q = Some (buf ++ more).

(** The confidence that [_update_sample_logprobs] appends for a token with
    the logprobs [lps]. *)
Definition confidence (lps : list Q) : Q :=
  match new_conf_of lps with
  | Ok c => c
  | Raise _ => 0%Q
  end.


(** The sampled token's logprob of a token's logprobs: the first one. *)
Definition sampled_logprob (lps : list Q) : Q := default 0%Q (head lps).

(** A step that contributes one token: its top-k token ids, the sampled
    token's logprob, the logprobs of the alternatives, and the rank of the
    sampled token. *)
Definition one_token_step (t : list Z * Q * list Q * Z) : LogprobsLists :=
  let '(ids, lp, alts, rank) := t in
  mkLogprobsLists [ids] [lp :: alts] [rank].

(** The sampled token's logprob of such a step. *)
Definition step_logprob (t : list Z * Q * list Q * Z) : Q := t.1.1.2.

(** The tokens that [_update_sample_logprobs] goes through, and the
    logprobs of each of them. *)
Definition step_tokens (ll : LogprobsLists) : list (Z * list Q * list Z) :=
  zip3 (sampled_token_ranks ll) (ll_logprobs ll) (logprob_token_ids ll).

Definition step_rows (ll : LogprobsLists) : list (list Q) :=
  map (λ it, it.1.2) (step_tokens ll).

(** The three sequences of a step do not have one and the same length. *)
Definition mismatched_lengths (ll : LogprobsLists) : Prop :=
  ¬ (length (logprob_token_ids ll) = length (ll_logprobs ll)
     ∧ length (ll_logprobs ll) = length (sampled_token_ranks ll)).

(** The shortest of the three lengths. *)
Definition shortest (ll : LogprobsLists) : nat :=
  length (sampled_token_ranks ll)
  `min` (length (ll_logprobs ll) `min` length (logprob_token_ids ll)).

(** The step with its three sequences cut to the shortest of them. *)
Definition truncate_step (ll : LogprobsLists) : LogprobsLists :=
  mkLogprobsLists (take (shortest ll) (logprob_token_ids ll))
    (take (shortest ll) (ll_logprobs ll))
    (take (shortest ll) (sampled_token_ranks ll)).

(** The reading of the specification: a step with mismatched lengths makes
    the update raise. *)
Definition mismatch_always_raises : Prop :=
  ∀ (p : LogprobsProcessor) (ll : LogprobsLists),
    mismatched_lengths ll →
    ∃ e, (_update_sample_logprobs ll p).1 = Raise e.

(** What a caller does with the prompt logprobs of a request: it feeds a
    prefill chunk, or it drains the buffer. *)
Inductive prompt_op : Type :=
  | PromptUpdate (lt : LogprobsTensors)
  | PromptDrain.

Definition prompt_call (p : LogprobsProcessor) (o : prompt_op)
    : LogprobsProcessor :=
  match o with
  | PromptUpdate lt => (_update_prompt_logprobs lt p).2
  | PromptDrain => (pop_prompt_logprobs p).2
  end.

Definition after_prompt_ops (ops : list prompt_op) (p : LogprobsProcessor)
    : LogprobsProcessor :=
  foldl prompt_call p ops.

(** The prompt logprobs a request delivers over the calls [ops]: what the
    drains returned, in order, and then what is still in the buffer. *)
Fixpoint prompt_stream (ops : list prompt_op) (p : LogprobsProcessor)
    : list (option (gmap Z Logprob)) :=
  match ops with
  | [] => default [] (prompt_logprobs p)
  | PromptUpdate lt :: ops' =>
      prompt_stream ops' (_update_prompt_logprobs lt p).2
  | PromptDrain :: ops' =>
      let '(r, p') := pop_prompt_logprobs p in
      match r with Ok (Some l) => l | _ => [] end ++ prompt_stream ops' p'
  end.

(** The reading of the specification: with prompt logprobs enabled, position
    0 of the buffer never holds a record, whatever the updates and drains. *)
Definition first_prompt_position_always_none : Prop :=
  ∀ (tk : option AnyTokenizer) (req : EngineCoreRequest)
    (p0 : LogprobsProcessor) (ops : list prompt_op),
    from_new_request tk req = Ok p0 → is_Some (num_prompt_logprobs p0) →
    ∀ buf d, prompt_logprobs (after_prompt_ops ops p0) = Some buf →
             buf !! 0 ≠ Some (Some d).

(** The [j]-th element of an iterable of decoded tokens, if it has one. *)
Definition decoded_at (decoded : decoded_iter) (j : nat)
    : option (option string) :=
  match decoded with
  | NONES => Some None
  | Tokens toks => Some <$> toks !! j
  end.

(** The number of top-k ranks that [_make_logprob_dict] lays out: the
    number requested, or the number of logprobs for the request [-1]. *)
Definition topk_count (lps : list Q) (num_logprobs : Z) : Z :=
  if decide (num_logprobs = -1)%Z then Z.of_nat (length lps)
  else num_logprobs.


(** ** Sample data *)

(** A request with two sample logprobs, one prompt logprob and a confidence
    window of three values with the threshold 0.5. *)
Definition demo_request : EngineCoreRequest :=
  mkEngineCoreRequest (Some (mkSamplingParams (Some 2%Z) (Some 1%Z)
    (Some (mkExtraArgs (Some true) (Some 3%Z) (Some 0.5%Q))))).

Definition demo_processor : LogprobsProcessor :=
  mkLogprobsProcessor 0%Q (Some []) (Some (mkDeque 3 [])) 3 (Some 0.5%Q)
    None (Some []) (Some [None]) (Some 0%Q) (Some 2%Z) (Some 1%Z).

(** One step with one token: the sampled token 7 and the alternatives 8
    and 9, of logprobs [-x]. *)
Definition demo_step (x : Q) : LogprobsLists :=
  mkLogprobsLists [[7; 8; 9]%Z] [[-0.5; -x; -x]%Q] [1%Z].

(** One step with three tokens. *)
Definition demo_step3 (x : Q) : LogprobsLists :=
  mkLogprobsLists [[7; 8; 9]; [7; 8; 9]; [7; 8; 9]]%Z
    [[-0.5; -x; -x]; [-0.5; -x; -x]; [-0.5; -x; -x]]%Q [1; 1; 1]%Z.

(** A step with one row of token ids, two rows of logprobs and three
    ranks. *)
Definition demo_mismatched : LogprobsLists :=
  mkLogprobsLists [[7; 8; 9]%Z]
    [[-0.5; -1; -2]; [-0.25; -1; -2]]%Q [1; 1; 1]%Z.

(** A prefill chunk of one position: the prompt token 5, of rank 3, and the
    alternative 6. *)
Definition demo_chunk : LogprobsTensors :=
  mkLogprobsTensors [[5; 6]%Z] [[-0.5; -1]%Q] [3%Z].

(** ** Further notions for the properties of the methods *)

(** The record that [_update_sample_logprobs] builds for one token, with
    the tokenizer [tk] and [n] logprobs requested. *)
Definition sample_record (tk : option AnyTokenizer) (n : Z)
    (it : Z * list Q * list Z) : gmap Z Logprob :=
  _make_logprob_dict it.1.2 it.2 (decode_or_nones tk it.2) it.1.1 n.

(** [q] is [p] but for the prompt buffer. *)
Definition only_prompt_buffer (p q : LogprobsProcessor) : Prop :=
  q = set_prompt_logprobs (prompt_logprobs q) p.

(** The window holds the last [conf_group_size] values of the history, or
    the whole history while it is shorter. *)
Definition window_is_history_tail (p : LogprobsProcessor) : Prop :=
  ∀ h d, conf_list p = Some h → conf_group_list p = Some d →
         items d = drop (length h - Z.to_nat (conf_group_size p)) h.

(** What the sample side leaves alone: the prompt buffer and the
    configuration. *)
Definition keeps_prompt_side (p q : LogprobsProcessor) : Prop :=
  prompt_logprobs q = prompt_logprobs p ∧ same_config p q.

(** The rank that [_make_logprob_dict] lays out for the position [j]: the
    rank of the distinguished token first, then 1, 2, ... *)
Definition rank_at (true_rank : Z) (j : nat) : Z :=
  if decide (j = 0) then true_rank else Z.of_nat j.

(** No entry of the record has a decoded token. *)
Definition text_free_record (rec : gmap Z Logprob) : Prop :=
  ∀ i e, rec !! i = Some e → decoded_token e = None.

(** No entry of any record of the processor has a decoded token. *)
Definition text_free (p : LogprobsProcessor) : Prop :=
  (∀ l, logprobs p = Some l → Forall text_free_record l)
  ∧ (∀ buf, prompt_logprobs p = Some buf →
       Forall (λ o, ∀ rec, o = Some rec → text_free_record rec) buf).

(** The invariant: well formed, with the tokenizer of [p0], and without
    text when [p0] has no tokenizer. *)
Definition no_text_inv (p0 p : LogprobsProcessor) : Prop :=
  wf p ∧ tokenizer p = tokenizer p0 ∧ (tokenizer p0 = None → text_free p).

(** The decoded tokens of the position [pos] of a prefill chunk, cut out of
    the tokens of the whole chunk, [k] per position. *)
Definition decoded_for_pos (decoded : option (list string)) (k pos : nat)
    : decoded_iter :=
  match decoded with
  | None => NONES
  | Some toks => Tokens (slice toks (pos * k) (pos * k + k))
  end.

(** The record of the position [pos] of a chunk, when the three tensors
    have a row for it. *)
Definition position_record (decoded : option (list string)) (k : nat)
    (rows : list (list Q)) (ids : list (list Z)) (ranks : list Z) (n : Z)
    (pos : nat) : option (gmap Z Logprob) :=
  lps ← rows !! pos; tids ← ids !! pos; rank ← ranks !! pos;
  Some (_make_logprob_dict lps tids (decoded_for_pos decoded k pos) rank n).

(** The records of the positions [poss], up to the first one that has
    none. *)
Fixpoint records_until_error (f : nat → option (gmap Z Logprob))
    (poss : list nat) : list (gmap Z Logprob) :=
  match poss with
  | [] => []
  | pos :: poss' =>
      match f pos with
      | Some r => r :: records_until_error f poss'
      | None => []
      end
  end.

(** The records that [_update_prompt_logprobs] appends for a chunk, with
    the tokenizer [tk] and [n] prompt logprobs requested. *)
Definition chunk_records (tk : option AnyTokenizer) (n : Z)
    (lt : LogprobsTensors) : list (gmap Z Logprob) :=
  let decoded :=
    match tk with
    | None => None
    | Some f => Some (f (concat (lt_logprob_token_ids lt)))
    end in
  records_until_error
    (position_record decoded (shape (lt_logprobs lt)).2 (lt_logprobs lt)
       (lt_logprob_token_ids lt) (selected_token_ranks lt) n)
    (seq 0 (shape (lt_logprobs lt)).1).

(** The prompt records that the updates among [ops] append. *)
Definition appended_records (tk : option AnyTokenizer) (n : Z)
    (ops : list prompt_op) : list (option (gmap Z Logprob)) :=
  concat (map (λ o, match o with
                    | PromptUpdate lt => Some <$> chunk_records tk n lt
                    | PromptDrain => []
                    end) ops).

(** The history has one confidence for every sample record. *)
Definition history_counts_records (p : LogprobsProcessor) : Prop :=
  ∀ h l, conf_list p = Some h → logprobs p = Some l → length h = length l.

(** * Proofs *)

Ltac unfold_method :=
  unfold mbind, mret, M_bind, M_ret, bind, ret, raise, get, modify, lift,
    assert in *.

Section sums.

Lemma sum_from (a : Q) (l : list Q) : (foldl Qplus a l == a + sum l)%Q.
Proof.
  unfold sum. revert a.
  induction l as [|x l IH]; intros a; simpl.
  - ring.
  - rewrite (IH (a + x)%Q), (IH (0 + x)%Q). ring.
Qed.

Lemma sum_cons (x : Q) (l : list Q) : (sum (x :: l) == x + sum l)%Q.
Proof. unfold sum at 1. simpl. rewrite sum_from. ring. Qed.

Lemma sum_snoc (l : list Q) (x : Q) : sum (l ++ [x]) = (sum l + x)%Q.
Proof. unfold sum. by rewrite foldl_app. Qed.

End sums.

Section deques.

Lemma deque_append_room (x : Q) (d : deque) :
  (deque_len d < maxlen d)%Z →
  deque_append x d = mkDeque (maxlen d) (items d ++ [x]).
Proof.
  unfold deque_append, deque_len. intros Hlt.
  rewrite length_app. simpl.
  destruct (decide _) as [Hfull|_]; [lia|done].
Qed.

Lemma deque_append_len (x : Q) (d : deque) :
  (0 ≤ maxlen d)%Z → (deque_len d ≤ maxlen d)%Z →
  (deque_len (deque_append x d) ≤ maxlen d)%Z.
Proof.
  unfold deque_append, deque_len. intros Hpos Hle.
  destruct (decide _) as [Hfull|Hroom]; simpl; [|lia].
  rewrite length_app in Hfull. simpl in Hfull.
  destruct (items d) as [|y l]; simpl in *; [lia|].
  rewrite length_app. simpl. lia.
Qed.

Lemma deque_append_maxlen (x : Q) (d : deque) :
  maxlen (deque_append x d) = maxlen d.
Proof. unfold deque_append. by destruct (decide _). Qed.

End deques.

Section confidence.

Lemma new_conf_of_ok (lps : list Q) :
  ∃ c, new_conf_of lps = Ok c.
Proof.
  unfold new_conf_of, truediv.
  destruct (decide (1 < length lps)) as [Hlen|Hlen]; [|by eexists].
  destruct (Qeq_bool _ 0) eqn:Hz; [|by eexists].
  apply Qeq_bool_iff in Hz. exfalso.
  rewrite length_drop in Hz.
  unfold Qeq in Hz. simpl in Hz. lia.
Qed.

Lemma update_conf_disabled (lps : list Q) (p : LogprobsProcessor) :
  conf_list p = None → update_conf lps p = (Ok tt, p).
Proof.
  intros Hd. unfold update_conf. unfold_method. by rewrite Hd.
Qed.

Lemma update_conf_enabled (lps : list Q) (p : LogprobsProcessor)
    (h : list Q) (d : deque) :
  conf_list p = Some h → conf_group_list p = Some d → window_ok p d →
  ∃ c d',
    new_conf_of lps = Ok c
    ∧ conf_list (update_conf lps p).2 = Some (h ++ [c])
    ∧ conf_group_list (update_conf lps p).2 = Some d'
    ∧ window_ok (update_conf lps p).2 d'
    ∧ frame_conf p (update_conf lps p).2
    ∧ ((0 < conf_group_size p)%Z → (update_conf lps p).1 = Ok tt).
Proof.
  intros Hh Hd (Hmax & Hlen & Hsum).
  destruct (new_conf_of_ok lps) as [c Hc].
  unfold update_conf. unfold_method. rewrite Hh, Hc. simpl. rewrite Hd.
  destruct (decide (deque_len d < conf_group_size p)%Z) as [Hroom|Hfull];
    simpl.
  - exists c, (deque_append c d). rewrite deque_append_room by lia.
    repeat split; simpl; try done.
    + unfold deque_len. simpl. rewrite length_app. simpl.
      unfold deque_len in Hroom. lia.
    + rewrite sum_snoc, Hsum. reflexivity.
  - unfold deque_popleft. destruct (items d) as [|x l] eqn:Hit; simpl.
    + exists c, d. rewrite Hd. repeat split; try done.
      * unfold window_ok; simpl. by rewrite Hit.
      * unfold deque_len in *. rewrite Hit in *. simpl in *. lia.
    + exists c, (deque_append c (mkDeque (maxlen d) l)).
      assert (Hl : (Z.of_nat (length l) + 1 = maxlen d)%Z).
      { unfold deque_len in *. rewrite Hit in *. simpl in *. lia. }
      assert (Happ : deque_append c (mkDeque (maxlen d) l)
                     = mkDeque (maxlen d) (l ++ [c])).
      { apply deque_append_room. unfold deque_len. simpl. lia. }
      rewrite Happ. repeat split; simpl; try done.
      * unfold deque_len. simpl. rewrite length_app. simpl. lia.
      * rewrite sum_snoc, Hsum, sum_cons. ring.
Qed.

End confidence.

Section preservation.

Lemma same_config_refl (p : LogprobsProcessor) : same_config p p.
Proof. by repeat split. Qed.

Lemma same_config_trans (p q r : LogprobsProcessor) :
  same_config p q → same_config q r → same_config p r.
Proof.
  unfold same_config. intros (?&?&?&?&?) (?&?&?&?&?).
  repeat split; congruence.
Qed.

Lemma preserves_refl (p : LogprobsProcessor) : preserves p p.
Proof. intros Hwf. split; [done|apply same_config_refl]. Qed.

Lemma preserves_trans (p q r : LogprobsProcessor) :
  preserves p q → preserves q r → preserves p r.
Proof.
  intros Hpq Hqr Hwf. destruct (Hpq Hwf) as [Hq Hc1].
  destruct (Hqr Hq) as [Hr Hc2]. eauto using same_config_trans.
Qed.

Lemma bind_snd_raise {A B : Type} (m : M A) (k : A → M B)
    (p : LogprobsProcessor) (e : exn) :
  (m p).1 = Raise e → (m ≫= k) p = (Raise e, (m p).2).
Proof.
  unfold_method. destruct (m p) as [[a|e'] p']; simpl; congruence.
Qed.

Lemma bind_snd_ok {A B : Type} (m : M A) (k : A → M B)
    (p : LogprobsProcessor) (a : A) :
  (m p).1 = Ok a → (m ≫= k) p = k a (m p).2.
Proof.
  unfold_method. destruct (m p) as [[a'|e'] p']; simpl; congruence.
Qed.

Lemma for_each_preserves {A : Type} (body : A → M unit) (l : list A) :
  (∀ x p, preserves p (body x p).2) →
  ∀ p, preserves p (for_each body l p).2.
Proof.
  intros Hbody. induction l as [|x l IH]; intros p; simpl.
  - apply preserves_refl.
  - destruct (body x p).1 as [[]|e] eqn:Hx.
    + rewrite (bind_snd_ok _ _ _ _ Hx).
      eapply preserves_trans; [apply Hbody|apply IH].
    + rewrite (bind_snd_raise _ _ _ _ Hx). apply Hbody.
Qed.

Lemma update_conf_preserves (lps : list Q) (p : LogprobsProcessor) :
  preserves p (update_conf lps p).2.
Proof.
  intros (Hconf & Hsample & Hprompt).
  destruct (conf_list p) as [h|] eqn:Hh.
  - destruct Hconf as (Hcl & Hthr & Hwin).
    destruct (proj1 Hcl) as [d Hd]; [by rewrite Hh|].
    destruct (update_conf_enabled lps p h d Hh Hd (Hwin d Hd))
      as (c & d' & _ & Hh' & Hd' & Hwin' & (Hcfg & Hl & Hpl & Hcum) & _).
    pose proof Hcfg as (Hsz & Hth & Htk & Hn & Hnp).
    split; [|done]. split; [|split].
    + unfold conf_wf. rewrite Hh', Hd', Hth. split_and!.
      * done.
      * rewrite Hd in Hthr. split; [by eauto|]. intros _. apply Hthr. by eauto.
      * intros d'' [= <-]. apply Hwin'.
    + unfold sample_wf in *. by rewrite Hl, Hcum, Hn.
    + unfold prompt_wf in *. by rewrite Hpl, Hnp.
  - rewrite update_conf_disabled by done. by apply preserves_refl.
Qed.

Lemma sample_token_enabled (rank : Z) (lp : Q) (alts : list Q)
    (ids : list Z) (p : LogprobsProcessor) (l : list (gmap Z Logprob))
    (c : Q) (n : Z) :
  logprobs p = Some l → cumulative_logprob p = Some c →
  num_logprobs p = Some n →
  sample_token (rank, lp :: alts, ids) p
  = update_conf (lp :: alts)
      (set_logprobs
         (Some (l ++ [_make_logprob_dict (lp :: alts) ids
                        (decode_or_nones (tokenizer p) ids) rank n]))
         (set_cumulative_logprob (Some (c + lp)%Q) p)).
Proof.
  intros Hl Hc Hn. unfold sample_token. unfold_method. simpl.
  by rewrite Hc, Hl, Hn.
Qed.

Lemma sample_token_preserves (item : Z * list Q * list Z)
    (p : LogprobsProcessor) :
  preserves p (sample_token item p).2.
Proof.
  destruct item as [[rank lps] ids]. intros Hwf.
  destruct lps as [|lp alts]; [by apply preserves_refl|].
  destruct (cumulative_logprob p) as [c|] eqn:Hc; cycle 1.
  { unfold sample_token. unfold_method. simpl. rewrite Hc. simpl.
    by apply preserves_refl. }
  pose proof Hwf as (Hconf & (Hs1 & Hs2) & Hprompt).
  destruct (proj1 Hs2) as [n Hn]; [by rewrite Hc|].
  destruct (proj2 Hs1) as [l Hl]; [by rewrite Hn|].
  rewrite (sample_token_enabled _ _ _ _ _ l c n) by done.
  refine (preserves_trans _ _ _ _ (update_conf_preserves _ _) Hwf).
  intros _. split; [|by repeat split].
  split; [|split]; simpl.
  - done.
  - unfold sample_wf; simpl. rewrite Hn. split; split; by eauto.
  - done.
Qed.

Lemma assert_true (b : bool) (p : LogprobsProcessor) :
  b = true → assert b p = (Ok tt, p).
Proof. by intros ->. Qed.

Lemma assert_false (b : bool) (p : LogprobsProcessor) :
  b = false → assert b p = (Raise AssertionError, p).
Proof. by intros ->. Qed.

(** [_update_sample_logprobs] either fails an assertion and leaves the
    processor as it is, or runs its loop. *)
Lemma update_sample_cases (ll : LogprobsLists) (p : LogprobsProcessor) :
  _update_sample_logprobs ll p = (Raise AssertionError, p)
  ∨ _update_sample_logprobs ll p
    = for_each sample_token
        (zip3 (sampled_token_ranks ll) (ll_logprobs ll)
              (logprob_token_ids ll)) p.
Proof.
  unfold _update_sample_logprobs. unfold_method.
  destruct (bool_decide (is_Some (num_logprobs p))); [|by left].
  destruct (bool_decide (is_Some (logprobs p))); [|by left].
  destruct (bool_decide (is_Some (cumulative_logprob p))); [|by left].
  by right.
Qed.

Lemma update_sample_preserves (ll : LogprobsLists)
    (p : LogprobsProcessor) :
  preserves p (_update_sample_logprobs ll p).2.
Proof.
  destruct (update_sample_cases ll p) as [-> | ->].
  - apply preserves_refl.
  - apply for_each_preserves, sample_token_preserves.
Qed.

Lemma prompt_position_preserves (decoded : option (list string))
    (k : nat) (rows : list (list Q)) (ids : list (list Z))
    (ranks : list Z) (pos : nat) (p : LogprobsProcessor) :
  preserves p (prompt_position decoded k rows ids ranks pos p).2.
Proof.
  unfold prompt_position. unfold_method.
  destruct (prompt_logprobs p) as [buf|] eqn:Hbuf;
    [|by apply preserves_refl].
  destruct (index rows pos); [|by apply preserves_refl].
  destruct (index ids pos); [|by apply preserves_refl].
  destruct (index ranks pos); [|by apply preserves_refl].
  destruct (num_prompt_logprobs p) as [n|] eqn:Hn;
    [|by apply preserves_refl].
  simpl. intros (Hconf & Hsample & Hprompt).
  split; [|by repeat split].
  split; [|split]; done.
Qed.

Lemma update_prompt_cases (lt : LogprobsTensors) (p : LogprobsProcessor) :
  _update_prompt_logprobs lt p = (Raise AssertionError, p)
  ∨ _update_prompt_logprobs lt p
    = for_each
        (prompt_position
           (match tokenizer p with
            | None => None
            | Some tk => Some (tk (concat (lt_logprob_token_ids lt)))
            end)
           (shape (lt_logprobs lt)).2 (lt_logprobs lt)
           (lt_logprob_token_ids lt) (selected_token_ranks lt))
        (seq 0 (shape (lt_logprobs lt)).1) p.
Proof.
  unfold _update_prompt_logprobs. unfold_method.
  destruct (bool_decide (is_Some (num_prompt_logprobs p))); [|by left].
  destruct (bool_decide (is_Some (prompt_logprobs p))); [|by left].
  by right.
Qed.

Lemma update_prompt_preserves (lt : LogprobsTensors)
    (p : LogprobsProcessor) :
  preserves p (_update_prompt_logprobs lt p).2.
Proof.
  destruct (update_prompt_cases lt p) as [-> | ->].
  - apply preserves_refl.
  - apply for_each_preserves. intros pos q.
    apply prompt_position_preserves.
Qed.

Lemma pop_preserves (p : LogprobsProcessor) :
  preserves p (pop_prompt_logprobs p).2.
Proof.
  unfold pop_prompt_logprobs. unfold_method.
  destruct (prompt_logprobs p) as [[|x buf]|] eqn:Hbuf; simpl;
    try by apply preserves_refl.
  intros (Hconf & Hsample & Hprompt).
  split; [|by repeat split].
  split; [|split]; try done.
  unfold prompt_wf in *. simpl. rewrite Hbuf in Hprompt.
  split; [intros _; apply Hprompt; by eauto|by eauto].
Qed.

Lemma update_from_output_preserves (out : EngineCoreOutput)
    (p : LogprobsProcessor) :
  preserves p (update_from_output out p).2.
Proof.
  unfold update_from_output.
  destruct (new_logprobs out) as [ll|].
  - destruct (_update_sample_logprobs ll p).1 as [[]|e] eqn:Hs.
    + rewrite (bind_snd_ok _ _ _ _ Hs).
      eapply preserves_trans; [apply update_sample_preserves|].
      destruct (new_prompt_logprobs_tensors out) as [lt|].
      * apply update_prompt_preserves.
      * apply preserves_refl.
    + rewrite (bind_snd_raise _ _ _ _ Hs). apply update_sample_preserves.
  - unfold_method. simpl.
    destruct (new_prompt_logprobs_tensors out) as [lt|].
    + apply update_prompt_preserves.
    + apply preserves_refl.
Qed.

Lemma from_new_request_wf (tk : option AnyTokenizer)
    (req : EngineCoreRequest) (p : LogprobsProcessor) :
  from_new_request tk req = Ok p → wf p.
Proof.
  unfold from_new_request.
  destruct (sampling_params req) as [[nl npl ea]|]; [|done]. simpl.
  assert (Hoff : wf (mkLogprobsProcessor 0 None None (-1) None tk
            (match nl with None => None | Some _ => Some [] end)
            (match npl with None => None | Some _ => Some [None] end)
            (match nl with None => None | Some _ => Some 0%Q end)
            nl npl)).
  { split; [|split].
    - split_and!; simpl; try done. 
    - unfold sample_wf; simpl. destruct nl; split; split; by eauto.
    - unfold prompt_wf; simpl. destruct npl; split; by eauto. }
  destruct ea as [[en ws th]|]; simpl; [|by intros [= <-]].
  destruct (default false en); [|by intros [= <-]].
  unfold deque_new. destruct (decide _) as [Hneg|Hpos]; [done|].
  intros [= <-]. split; [|split].
  - split_and!; simpl; try done.
    intros d [= <-]. unfold window_ok, deque_len; simpl.
    split_and!; [done|lia|reflexivity].
  - unfold sample_wf; simpl. destruct nl; split; split; by eauto.
  - unfold prompt_wf; simpl. destruct npl; split; by eauto.
Qed.

Lemma reachable_wf (p : LogprobsProcessor) : reachable p → wf p.
Proof.
  induction 1 as [tk req p Hnew|out p _ IH|ll p _ IH|lt p _ IH|p _ IH].
  - by eapply from_new_request_wf.
  - by apply update_from_output_preserves.
  - by apply update_sample_preserves.
  - by apply update_prompt_preserves.
  - by apply pop_preserves.
Qed.

End preservation.

Section sample_steps.

Lemma update_conf_frame (lps : list Q) (p : LogprobsProcessor) :
  wf p → frame_conf p (update_conf lps p).2.
Proof.
  intros (Hconf & _). destruct (conf_list p) as [h|] eqn:Hh.
  - destruct Hconf as (Hcl & _ & Hwin).
    destruct (proj1 Hcl) as [d Hd]; [by rewrite Hh|].
    by destruct (update_conf_enabled lps p h d Hh Hd (Hwin d Hd))
      as (c & d' & _ & _ & _ & _ & Hframe & _).
  - rewrite update_conf_disabled by done.
    split; [apply same_config_refl|done].
Qed.

Lemma update_conf_history (lps : list Q) (p : LogprobsProcessor) :
  wf p →
  conf_list (update_conf lps p).2
  = (λ h, h ++ [confidence lps]) <$> conf_list p.
Proof.
  intros (Hconf & _). destruct (conf_list p) as [h|] eqn:Hh.
  - destruct Hconf as (Hcl & _ & Hwin).
    destruct (proj1 Hcl) as [d Hd]; [by rewrite Hh|].
    destruct (update_conf_enabled lps p h d Hh Hd (Hwin d Hd))
      as (c & d' & Hc & Hh' & _).
    unfold confidence. by rewrite Hc, Hh'.
  - rewrite update_conf_disabled by done. simpl. by rewrite Hh.
Qed.

Lemma update_conf_returns (lps : list Q) (p : LogprobsProcessor) :
  wf p → (is_Some (conf_list p) → (0 < conf_group_size p)%Z) →
  (update_conf lps p).1 = Ok tt.
Proof.
  intros (Hconf & _) Hpos. destruct (conf_list p) as [h|] eqn:Hh.
  - destruct Hconf as (Hcl & _ & Hwin).
    destruct (proj1 Hcl) as [d Hd]; [by rewrite Hh|].
    destruct (update_conf_enabled lps p h d Hh Hd (Hwin d Hd))
      as (c & d' & _ & _ & _ & _ & _ & Hok).
    apply Hok, Hpos. by eauto.
  - by rewrite update_conf_disabled.
Qed.

(** One token with at least the sampled logprob, on a processor with
    sample logprobs enabled. *)
Lemma sample_token_step (rank : Z) (lp : Q) (alts : list Q) (ids : list Z)
    (p : LogprobsProcessor) (l : list (gmap Z Logprob)) (c : Q) (n : Z) :
  wf p → logprobs p = Some l → cumulative_logprob p = Some c →
  num_logprobs p = Some n →
  let r := sample_token (rank, lp :: alts, ids) p in
  logprobs r.2
  = Some (l ++ [_make_logprob_dict (lp :: alts) ids
                  (decode_or_nones (tokenizer p) ids) rank n])
  ∧ cumulative_logprob r.2 = Some (c + lp)%Q
  ∧ conf_list r.2 = (λ h, h ++ [confidence (lp :: alts)]) <$> conf_list p
  ∧ wf r.2 ∧ same_config p r.2
  ∧ ((is_Some (conf_list p) → (0 < conf_group_size p)%Z) → r.1 = Ok tt).
Proof.
  intros Hwf Hl Hc Hn r.
  destruct (sample_token_preserves (rank, lp :: alts, ids) p Hwf)
    as [Hwf' Hcfg].
  subst r. rewrite (sample_token_enabled _ _ _ _ _ l c n) in * by done.
  set (p1 := set_logprobs _ _) in *.
  assert (Hwf1 : wf p1).
  { destruct Hwf as (Hconf & Hsample & Hprompt).
    split; [done|split; [|done]].
    unfold sample_wf; simpl. rewrite Hn. split; split; by eauto. }
  destruct (update_conf_frame (lp :: alts) p1 Hwf1)
    as (_ & Hl' & _ & Hc').
  split_and!; try done.
  - by rewrite update_conf_history.
  - intros Hpos. by apply update_conf_returns.
Qed.

(** A loop over tokens that all carry the sampled logprob, with the
    window off or of a positive size: it returns, and every token is
    recorded. *)
Lemma sample_tokens_run (its : list (Z * list Q * list Z)) :
  ∀ (p : LogprobsProcessor) (l : list (gmap Z Logprob)) (c : Q) (n : Z),
  wf p → logprobs p = Some l → cumulative_logprob p = Some c →
  num_logprobs p = Some n →
  Forall (λ it, it.1.2 ≠ []) its →
  (is_Some (conf_list p) → (0 < conf_group_size p)%Z) →
  let r := for_each sample_token its p in
  r.1 = Ok tt
  ∧ wf r.2 ∧ same_config p r.2
  ∧ conf_list r.2
    = (λ h, h ++ map (λ it, confidence it.1.2) its) <$> conf_list p
  ∧ ∃ ds c',
      logprobs r.2 = Some (l ++ ds) ∧ length ds = length its
      ∧ cumulative_logprob r.2 = Some c'
      ∧ (c' == c + sum (map (λ it, sampled_logprob it.1.2) its))%Q.
Proof.
  induction its as [|[[rank lps] ids] its IH];
    intros p l c n Hwf Hl Hc Hn Hne Hpos; simpl.
  - split_and!; try done.
    + by destruct (conf_list p); simpl; rewrite ?app_nil_r.
    + exists [], c. rewrite app_nil_r. split_and!; try done.
      unfold sum; simpl. ring.
  - apply Forall_cons in Hne as [Hrow Hne]. simpl in Hrow.
    destruct lps as [|lp alts]; [done|].
    destruct (sample_token_step rank lp alts ids p l c n Hwf Hl Hc Hn)
      as (Hl1 & Hc1 & Hh1 & Hwf1 & Hcfg1 & Hok1).
    specialize (Hok1 Hpos).
    rewrite (bind_snd_ok _ _ _ _ Hok1).
    set (p1 := (sample_token (rank, lp :: alts, ids) p).2) in *.
    pose proof Hcfg1 as (Hsz & _ & _ & Hn1 & _).
    destruct (IH p1 _ _ n Hwf1 Hl1 Hc1) as
      (Hok & Hwf2 & Hcfg2 & Hh2 & ds & c' & Hl2 & Hlen & Hc2 & Hsum).
    { by rewrite Hn1. }
    { done. }
    { rewrite Hh1, Hsz. intros Hs. apply Hpos.
      by destruct (conf_list p). }
    split_and!; try done.
    + by eapply same_config_trans.
    + rewrite Hh2, Hh1. destruct (conf_list p); simpl; [|done].
      by rewrite <- app_assoc.
    + eexists (_ :: ds), c'. split_and!.
      * by rewrite Hl2, <- app_assoc.
      * simpl. by rewrite Hlen.
      * done.
      * rewrite Hsum, sum_cons. unfold sampled_logprob at 2; simpl. ring.
Qed.

End sample_steps.

Section window.

Lemma calls_preserves {A B : Type} (f : A → M B) (args : list A) :
  (∀ a p, preserves p (f a p).2) →
  ∀ p, preserves p (calls f args p).2.
Proof.
  intros Hf. induction args as [|a args IH]; intros p; simpl.
  - apply preserves_refl.
  - specialize (Hf a p). specialize (IH (f a p).2).
    destruct (f a p) as [r p1]. simpl in *.
    destruct (calls f args p1) as [rs p2]. simpl in *.
    by eapply preserves_trans.
Qed.

(** A window that is enabled stays enabled. *)
Lemma window_stays (p q : LogprobsProcessor) :
  wf p → wf q → same_config p q →
  is_Some (conf_group_list p) → is_Some (conf_group_list q).
Proof.
  intros ((_ & Hthr & _) & _) ((_ & Hthr' & _) & _) (_ & Heq & _) Hen.
  apply Hthr'. rewrite Heq. by apply Hthr.
Qed.

End window.

(** C3: on a processor built with the confidence window enabled, after
    every sequence of sample-logprob updates the window holds at most
    [conf_group_size] values, the capacity chosen at construction, and
    [conf_grouped] is the exact sum of the values in the window. *)
Theorem window_bounded_and_sum_exact (tk : option AnyTokenizer)
    (req : EngineCoreRequest) (p0 : LogprobsProcessor)
    (steps : list LogprobsLists) :
  from_new_request tk req = Ok p0 → is_Some (conf_group_list p0) →
  let p := (calls _update_sample_logprobs steps p0).2 in
  ∃ d, conf_group_list p = Some d
       ∧ conf_group_size p = conf_group_size p0
       ∧ (deque_len d ≤ conf_group_size p0)%Z
       ∧ (conf_grouped p == sum (items d))%Q.
Proof.
  intros Hnew Hen p.
  pose proof (from_new_request_wf _ _ _ Hnew) as Hwf0.
  destruct (calls_preserves _update_sample_logprobs steps
              update_sample_preserves p0 Hwf0) as [Hwf Hcfg].
  fold p in Hwf, Hcfg.
  destruct (window_stays p0 p Hwf0 Hwf Hcfg Hen) as [d Hd].
  destruct Hwf as ((_ & _ & Hwin) & _).
  destruct (Hwin d Hd) as (_ & Hlen & Hsum).
  destruct Hcfg as (Hsz & _).
  exists d. rewrite <- Hsz at 2. by split_and!.
Qed.

Lemma window_bounded_and_sum_exact_witness :
  let p := (calls _update_sample_logprobs
              [demo_step 1; demo_step3 1; demo_step 0.1] demo_processor).2 in
  ∃ d, conf_group_list p = Some d
       ∧ conf_group_size p = conf_group_size demo_processor
       ∧ (deque_len d ≤ conf_group_size demo_processor)%Z
       ∧ (conf_grouped p == sum (items d))%Q.
Proof.
  apply (window_bounded_and_sum_exact None demo_request demo_processor).
  - reflexivity.
  - exists (mkDeque 3 []). reflexivity.
Defined.

Section stop.

Lemma truediv_len (a : Q) (n : Z) :
  n ≠ 0%Z → truediv a (inject_Z n) = Ok (a / inject_Z n)%Q.
Proof.
  intros Hn. unfold truediv.
  destruct (Qeq_bool (inject_Z n) 0) eqn:Hz; [|done].
  apply Qeq_bool_iff in Hz. unfold Qeq in Hz. simpl in Hz. lia.
Qed.



End stop.



Section one_token.

Lemma bind_ret_unit (m : M unit) (p : LogprobsProcessor) :
  (m ;; ret tt) p = m p.
Proof.
  unfold_method. by destruct (m p) as [[[]|e] q].
Qed.

Lemma update_one_token (t : list Z * Q * list Q * Z)
    (p : LogprobsProcessor) :
  is_Some (logprobs p) → is_Some (cumulative_logprob p) →
  is_Some (num_logprobs p) →
  _update_sample_logprobs (one_token_step t) p
  = sample_token (t.2, t.1.1.2 :: t.1.2, t.1.1.1) p.
Proof.
  intros Hl Hc Hn. destruct t as [[[ids lp] alts] rank].
  unfold _update_sample_logprobs. unfold_method.
  rewrite !bool_decide_eq_true_2 by done.
  cbn [zip3 for_each logprob_token_ids ll_logprobs sampled_token_ranks
       one_token_step fst snd].
  unfold_method.
  by destruct (sample_token (rank, lp :: alts, ids) p) as [[[]|e] q].
Qed.

Lemma one_token_calls (toks : list (list Z * Q * list Q * Z)) :
  ∀ (p : LogprobsProcessor) (l : list (gmap Z Logprob)) (c : Q) (n : Z),
  wf p → logprobs p = Some l → cumulative_logprob p = Some c →
  num_logprobs p = Some n →
  let r := calls _update_sample_logprobs (map one_token_step toks) p in
  (∃ ds c',
      logprobs r.2 = Some (l ++ ds) ∧ length ds = length toks
      ∧ cumulative_logprob r.2 = Some c'
      ∧ (c' == c + sum (map step_logprob toks))%Q)
  ∧ ((is_Some (conf_list p) → (0 < conf_group_size p)%Z) →
     Forall (λ o, o = Ok tt) r.1).
Proof.
  induction toks as [|t toks IH]; intros p l c n Hwf Hl Hc Hn.
  - split; [|done]. exists [], c. simpl. rewrite app_nil_r.
    split_and!; try done. unfold sum; simpl. ring.
  - cbn [map calls].
    rewrite update_one_token by (by rewrite ?Hl, ?Hc, ?Hn).
    destruct t as [[[ids lp] alts] rank]. cbn [fst snd].
    destruct (sample_token_step rank lp alts ids p l c n Hwf Hl Hc Hn)
      as (Hl1 & Hc1 & Hh1 & Hwf1 & Hcfg1 & Hok1).
    pose proof Hcfg1 as (Hsz & _ & _ & Hn1 & _).
    destruct (sample_token (rank, lp :: alts, ids) p) as [o p1].
    simpl in *. rewrite Hn in Hn1.
    destruct (IH p1 _ _ n Hwf1 Hl1 Hc1 Hn1)
      as ((ds & c' & Hl2 & Hlen & Hc2 & Hsum) & Hoks).
    destruct (calls _ _ p1) as [os p2]. simpl in *. split.
    + eexists (_ :: ds), c'. split_and!.
      * by rewrite Hl2, <- app_assoc.
      * simpl. by rewrite Hlen.
      * done.
      * rewrite Hsum, sum_cons. unfold step_logprob at 2; simpl. ring.
    + intros Hpos. constructor; [by apply Hok1|].
      apply Hoks. rewrite Hh1, Hsz. intros Hs. apply Hpos.
      by destruct (conf_list p).
Qed.

End one_token.

(** C6: on a processor built with sample logprobs enabled, after [n]
    update calls that each contribute one token, [logprobs] has [n]
    entries and [cumulative_logprob] is the exact sum of the [n] sampled
    logprobs, the first logprob of each step.  Every one of the calls
    returns when the confidence window is off or has a positive size. *)
Theorem one_token_updates_count_and_sum (tk : option AnyTokenizer)
    (req : EngineCoreRequest) (p0 : LogprobsProcessor)
    (toks : list (list Z * Q * list Q * Z)) :
  from_new_request tk req = Ok p0 → is_Some (num_logprobs p0) →
  let r := calls _update_sample_logprobs (map one_token_step toks) p0 in
  (∃ l c,
      logprobs r.2 = Some l ∧ length l = length toks
      ∧ cumulative_logprob r.2 = Some c
      ∧ (c == sum (map step_logprob toks))%Q)
  ∧ ((is_Some (conf_list p0) → (0 < conf_group_size p0)%Z) →
     Forall (λ o, o = Ok tt) r.1).
Proof.
  intros Hnew [n Hn] r.
  pose proof (from_new_request_wf _ _ _ Hnew) as Hwf.
  assert (Hl : logprobs p0 = Some [] ∧ cumulative_logprob p0 = Some 0%Q).
  { unfold from_new_request in Hnew.
    destruct (sampling_params req) as [[nl npl ea]|]; [|done].
    simpl in Hnew.
    destruct ea as [[en ws th]|]; simpl in Hnew;
      [destruct (default false en);
       [destruct (deque_new _); [|done]|]|];
      injection Hnew as <-; simpl in *; by subst nl. }
  destruct Hl as [Hl Hc].
  destruct (one_token_calls toks p0 [] 0%Q n Hwf Hl Hc Hn)
    as ((ds & c' & Hl2 & Hlen & Hc2 & Hsum) & Hoks).
  split; [|done]. exists ds, c'. split_and!; try done.
  rewrite Hsum. ring.
Qed.

Lemma one_token_updates_count_and_sum_witness :
  let r := calls _update_sample_logprobs
             (map one_token_step
                [([7; 8]%Z, -0.5%Q, [-1%Q], 1%Z);
                 ([8; 7]%Z, -0.25%Q, [-2%Q], 1%Z)])
             demo_processor in
  (∃ l c,
      logprobs r.2 = Some l ∧ length l = 2
      ∧ cumulative_logprob r.2 = Some c
      ∧ (c == sum [-0.5; -0.25])%Q)
  ∧ ((is_Some (conf_list demo_processor)
      → (0 < conf_group_size demo_processor)%Z) →
     Forall (λ o, o = Ok tt) r.1).
Proof.
  apply (one_token_updates_count_and_sum None demo_request demo_processor
           [([7; 8]%Z, -0.5%Q, [-1%Q], 1%Z);
            ([8; 7]%Z, -0.25%Q, [-2%Q], 1%Z)]).
  - reflexivity.
  - exists 2%Z. reflexivity.
Defined.

Section drain.

Lemma set_prompt_logprobs_same (p : LogprobsProcessor) :
  set_prompt_logprobs (prompt_logprobs p) p = p.
Proof. by destruct p. Qed.

Lemma pop_enabled (p : LogprobsProcessor)
    (buf : list (option (gmap Z Logprob))) :
  prompt_logprobs p = Some buf →
  pop_prompt_logprobs p = (Ok (Some buf), set_prompt_logprobs (Some []) p).
Proof.
  intros Hbuf. unfold pop_prompt_logprobs. unfold_method. rewrite Hbuf.
  destruct buf as [|x buf]; simpl; [|done].
  by rewrite <- Hbuf, set_prompt_logprobs_same.
Qed.

Lemma pop_disabled (p : LogprobsProcessor) :
  prompt_logprobs p = None → pop_prompt_logprobs p = (Ok None, p).
Proof.
  intros Hbuf. unfold pop_prompt_logprobs. unfold_method. by rewrite Hbuf.
Qed.

End drain.

(** C7: with prompt logprobs enabled, [pop_prompt_logprobs] returns the
    whole buffer and leaves the processor with an empty buffer, still
    enabled, and nothing else changed; a second call right after it returns
    the empty list.  With prompt logprobs disabled every call returns
    [None], and the processor stays as it is. *)
Theorem pop_prompt_logprobs_drains (p : LogprobsProcessor) :
  match prompt_logprobs p with
  | Some buf =>
      let r1 := pop_prompt_logprobs p in
      let r2 := pop_prompt_logprobs r1.2 in
      r1 = (Ok (Some buf), set_prompt_logprobs (Some []) p)
      ∧ prompt_logprobs r1.2 = Some []
      ∧ num_prompt_logprobs r1.2 = num_prompt_logprobs p
      ∧ r2 = (Ok (Some []), r1.2)
  | None =>
      ∀ n : nat,
        calls (λ _ : unit, pop_prompt_logprobs) (replicate n tt) p
        = (replicate n (Ok None), p)
  end.
Proof.
  destruct (prompt_logprobs p) as [buf|] eqn:Hbuf.
  - rewrite (pop_enabled p buf Hbuf). simpl. by split_and!.
  - intros n. induction n as [|n IH]; simpl; [done|].
    by rewrite pop_disabled, IH.
Qed.

(** C9: on a processor just built with prompt logprobs enabled, the first
    call of [pop_prompt_logprobs] returns the list [[None]], of length one,
    and leaves the buffer empty. *)
Theorem first_drain_returns_placeholder (tk : option AnyTokenizer)
    (req : EngineCoreRequest) (p0 : LogprobsProcessor) :
  from_new_request tk req = Ok p0 → is_Some (num_prompt_logprobs p0) →
  pop_prompt_logprobs p0
  = (Ok (Some [None]), set_prompt_logprobs (Some []) p0)
  ∧ prompt_logprobs (pop_prompt_logprobs p0).2 = Some [].
Proof.
  intros Hnew [n Hn].
  assert (Hbuf : prompt_logprobs p0 = Some [None]).
  { unfold from_new_request in Hnew.
    destruct (sampling_params req) as [[nl npl ea]|]; [|done].
    simpl in Hnew.
    destruct ea as [[en ws th]|]; simpl in Hnew;
      [destruct (default false en);
       [destruct (deque_new _); [|done]|]|];
      injection Hnew as <-; simpl in *; by subst npl. }
  by rewrite (pop_enabled p0 _ Hbuf).
Qed.

Lemma first_drain_returns_placeholder_witness :
  pop_prompt_logprobs demo_processor
  = (Ok (Some [None]), set_prompt_logprobs (Some []) demo_processor)
  ∧ prompt_logprobs (pop_prompt_logprobs demo_processor).2 = Some [].
Proof.
  apply (first_drain_returns_placeholder None demo_request demo_processor).
  - reflexivity.
  - exists 1%Z. reflexivity.
Defined.

(** C10: [update_from_output] with an output whose [new_logprobs] and
    [new_prompt_logprobs_tensors] are both [None] returns and leaves the
    processor, every field of it, as it was. *)
Theorem update_from_empty_output (out : EngineCoreOutput)
    (p : LogprobsProcessor) :
  new_logprobs out = None → new_prompt_logprobs_tensors out = None →
  update_from_output out p = (Ok tt, p).
Proof.
  intros Hs Hp. unfold update_from_output. by rewrite Hs, Hp.
Qed.

Lemma update_from_empty_output_witness :
  update_from_output (mkEngineCoreOutput None None) demo_processor
  = (Ok tt, demo_processor).
Proof.
  apply (update_from_empty_output (mkEngineCoreOutput None None)
           demo_processor); reflexivity.
Defined.

Section confidence_value.



Lemma update_sample_enabled (ll : LogprobsLists) (p : LogprobsProcessor) :
  is_Some (logprobs p) → is_Some (cumulative_logprob p) →
  is_Some (num_logprobs p) →
  _update_sample_logprobs ll p = for_each sample_token (step_tokens ll) p.
Proof.
  intros Hl Hc Hn. unfold _update_sample_logprobs. unfold_method.
  by rewrite !bool_decide_eq_true_2 by done.
Qed.

Lemma sample_enabled (p : LogprobsProcessor) :
  wf p → is_Some (num_logprobs p) →
  is_Some (logprobs p) ∧ is_Some (cumulative_logprob p).
Proof. intros (_ & (Hl & Hc) & _) Hn. split; [by apply Hl|by apply Hc]. Qed.

End confidence_value.



Section truncation.

Lemma zip3_length {A B C : Type} (a : list A) (b : list B) (c : list C) :
  length (zip3 a b c) = length a `min` (length b `min` length c).
Proof.
  revert b c. induction a as [|x a IH]; intros [|y b] [|z c]; simpl;
    try done.
  by rewrite IH.
Qed.

Lemma zip3_take {A B C : Type} (a : list A) (b : list B) (c : list C) :
  let m := length a `min` (length b `min` length c) in
  zip3 (take m a) (take m b) (take m c) = zip3 a b c.
Proof.
  revert b c. induction a as [|x a IH]; intros [|y b] [|z c]; simpl;
    try done.
  f_equal. apply IH.
Qed.

Lemma step_tokens_truncate (ll : LogprobsLists) :
  step_tokens (truncate_step ll) = step_tokens ll.
Proof. unfold step_tokens, truncate_step, shortest. apply zip3_take. Qed.

Lemma update_sample_tokens (ll ll' : LogprobsLists)
    (p : LogprobsProcessor) :
  step_tokens ll = step_tokens ll' →
  _update_sample_logprobs ll p = _update_sample_logprobs ll' p.
Proof.
  intros Heq. unfold _update_sample_logprobs. unfold_method.
  fold (step_tokens ll) (step_tokens ll'). by rewrite Heq.
Qed.

End truncation.

(** C2, as stated, fails: on a processor with sample logprobs enabled, the
    update with one row of token ids, two rows of logprobs and three ranks
    returns, and records one token. *)
Lemma mismatched_update_returns :
  mismatched_lengths demo_mismatched
  ∧ (_update_sample_logprobs demo_mismatched demo_processor).1 = Ok tt
  ∧ length <$> logprobs
      (_update_sample_logprobs demo_mismatched demo_processor).2 = Some 1
  ∧ ¬ mismatch_always_raises.
Proof.
  assert (Hmis : mismatched_lengths demo_mismatched).
  { intros [Hlen _]. simpl in Hlen. lia. }
  split_and!; [done|reflexivity|reflexivity|].
  intros Hclaim.
  destruct (Hclaim demo_processor demo_mismatched Hmis) as [e He].
  vm_compute in He. discriminate He.
Qed.

(** C2, amended: the update goes through the tokens of the three sequences
    cut to the shortest of them, and through no other: it has the outcome
    and leaves the processor of the update with the truncated step.  On a
    processor with sample logprobs enabled, the window off or of a positive
    size, and tokens that all carry the sampled logprob, it returns and
    appends as many records as the shortest sequence is long. *)
Theorem mismatched_update_truncates (p : LogprobsProcessor)
    (ll : LogprobsLists) :
  _update_sample_logprobs ll p = _update_sample_logprobs (truncate_step ll) p
  ∧ length (step_tokens ll) = shortest ll
  ∧ (reachable p → is_Some (num_logprobs p) →
     (is_Some (conf_list p) → (0 < conf_group_size p)%Z) →
     Forall (λ lps, lps ≠ []) (step_rows ll) →
     (_update_sample_logprobs ll p).1 = Ok tt
     ∧ ∃ l ds,
         logprobs p = Some l
         ∧ logprobs (_update_sample_logprobs ll p).2 = Some (l ++ ds)
         ∧ length ds = shortest ll).
Proof.
  split_and!.
  - apply update_sample_tokens. by rewrite step_tokens_truncate.
  - unfold step_tokens, shortest. apply zip3_length.
  - intros Hreach Hn Hpos Hrows.
    apply reachable_wf in Hreach as Hwf.
    destruct (sample_enabled p Hwf Hn) as [Hl Hc].
    rewrite update_sample_enabled by done.
    destruct Hl as [l Hl], Hc as [c Hc], Hn as [n Hn].
    destruct (sample_tokens_run (step_tokens ll) p l c n Hwf Hl Hc Hn)
      as (Hok & _ & _ & _ & ds & c' & Hl' & Hlen & _).
    { unfold step_rows in Hrows. by rewrite Forall_map in Hrows. }
    { done. }
    split; [done|]. exists l, ds. split_and!; try done.
    rewrite Hlen. unfold step_tokens, shortest. apply zip3_length.
Qed.

Lemma mismatched_update_truncates_witness :
  (_update_sample_logprobs demo_mismatched demo_processor).1 = Ok tt
  ∧ ∃ l ds,
      logprobs demo_processor = Some l
      ∧ logprobs (_update_sample_logprobs demo_mismatched demo_processor).2
        = Some (l ++ ds)
      ∧ length ds = shortest demo_mismatched.
Proof.
  apply (mismatched_update_truncates demo_processor demo_mismatched).
  - apply (reach_new None demo_request). reflexivity.
  - exists 2%Z. reflexivity.
  - reflexivity.
  - repeat constructor; discriminate.
Defined.

Section prompt_buffer.

Lemma buffer_grows_refl (p : LogprobsProcessor) : buffer_grows p p.
Proof. intros buf Hbuf. exists []. by rewrite app_nil_r. Qed.

Lemma buffer_grows_trans (p q r : LogprobsProcessor) :
  buffer_grows p q → buffer_grows q r → buffer_grows p r.
Proof.
  intros Hpq Hqr buf Hbuf. destruct (Hpq buf Hbuf) as [m1 H1].
  destruct (Hqr _ H1) as [m2 H2]. exists (m1 ++ m2).
  by rewrite H2, app_assoc.
Qed.

Lemma for_each_buffer_grows {A : Type} (body : A → M unit) (l : list A) :
  (∀ x p, buffer_grows p (body x p).2) →
  ∀ p, buffer_grows p (for_each body l p).2.
Proof.
  intros Hbody. induction l as [|x l IH]; intros p; simpl.
  - apply buffer_grows_refl.
  - destruct (body x p).1 as [[]|e] eqn:Hx.
    + rewrite (bind_snd_ok _ _ _ _ Hx).
      eapply buffer_grows_trans; [apply Hbody|apply IH].
    + rewrite (bind_snd_raise _ _ _ _ Hx). apply Hbody.
Qed.

Lemma prompt_position_grows (decoded : option (list string))
    (k : nat) (rows : list (list Q)) (ids : list (list Z))
    (ranks : list Z) (pos : nat) (p : LogprobsProcessor) :
  buffer_grows p (prompt_position decoded k rows ids ranks pos p).2.
Proof.
  unfold prompt_position. unfold_method.
  destruct (prompt_logprobs p) as [buf|] eqn:Hbuf;
    [|by apply buffer_grows_refl].
  destruct (index rows pos); [|by apply buffer_grows_refl].
  destruct (index ids pos); [|by apply buffer_grows_refl].
  destruct (index ranks pos); [|by apply buffer_grows_refl].
  destruct (num_prompt_logprobs p) as [n|] eqn:Hn;
    [|by apply buffer_grows_refl].
  simpl. intros buf' Hbuf'. rewrite Hbuf in Hbuf'.
  injection Hbuf' as <-. by eexists.
Qed.

Lemma update_prompt_grows (lt : LogprobsTensors) (p : LogprobsProcessor) :
  buffer_grows p (_update_prompt_logprobs lt p).2.
Proof.
  destruct (update_prompt_cases lt p) as [-> | ->].
  - apply buffer_grows_refl.
  - apply for_each_buffer_grows. intros pos q.
    apply prompt_position_grows.
Qed.

Lemma fresh_prompt_buffer (tk : option AnyTokenizer)
    (req : EngineCoreRequest) (p0 : LogprobsProcessor) :
  from_new_request tk req = Ok p0 → is_Some (num_prompt_logprobs p0) →
  prompt_logprobs p0 = Some [None].
Proof.
  intros Hnew [n Hn]. unfold from_new_request in Hnew.
  destruct (sampling_params req) as [[nl npl ea]|]; [|done].
  simpl in Hnew.
  destruct ea as [[en ws th]|]; simpl in Hnew;
    [destruct (default false en);
     [destruct (deque_new _); [|done]|]|];
    injection Hnew as <-; simpl in *; by subst npl.
Qed.

Lemma updates_keep_head (lts : list LogprobsTensors) :
  ∀ (p : LogprobsProcessor) (rest : list (option (gmap Z Logprob))),
  prompt_logprobs p = Some (None :: rest) →
  ∃ rest', prompt_logprobs (after_prompt_ops (map PromptUpdate lts) p)
           = Some (None :: rest').
Proof.
  induction lts as [|lt lts IH]; intros p rest Hbuf; simpl.
  - by eexists.
  - destruct (update_prompt_grows lt p _ Hbuf) as [more Hmore].
    by eapply IH.
Qed.

Lemma stream_keeps_head (ops : list prompt_op) :
  ∀ (p : LogprobsProcessor) (rest : list (option (gmap Z Logprob))),
  prompt_logprobs p = Some (None :: rest) →
  ∃ rest', prompt_stream ops p = None :: rest'.
Proof.
  induction ops as [|[lt|] ops IH]; intros p rest Hbuf; simpl.
  - rewrite Hbuf. by eexists.
  - destruct (update_prompt_grows lt p _ Hbuf) as [more Hmore].
    by eapply IH.
  - rewrite (pop_enabled p _ Hbuf). simpl. by eexists.
Qed.

End prompt_buffer.

(** C1, as stated, fails: after a drain and an update with a chunk of one
    position, position 0 of the buffer holds the record of that position. *)
Lemma first_prompt_position_holds_record :
  prompt_logprobs
    (after_prompt_ops [PromptDrain; PromptUpdate demo_chunk] demo_processor)
  = Some [Some (<[6%Z := mkLogprob (-1) 1 None]>
                  {[5%Z := mkLogprob (-0.5) 3 None]})]
  ∧ ¬ first_prompt_position_always_none.
Proof.
  assert (Hbuf : prompt_logprobs
            (after_prompt_ops [PromptDrain; PromptUpdate demo_chunk]
               demo_processor)
          = Some [Some (<[6%Z := mkLogprob (-1) 1 None]>
                          {[5%Z := mkLogprob (-0.5) 3 None]})]).
  { vm_compute. reflexivity. }
  split; [done|]. intros Hclaim.
  eapply (Hclaim None demo_request demo_processor
            [PromptDrain; PromptUpdate demo_chunk]).
  - reflexivity.
  - exists 1%Z. reflexivity.
  - exact Hbuf.
  - reflexivity.
Qed.

(** C1, amended: on a processor built with prompt logprobs enabled,
    position 0 of the buffer is [None] after every sequence of
    prompt-logprob updates without a drain; and over every sequence of
    updates and drains, [None] is the first element of what the request
    delivers, the results of the drains followed by the buffer. *)
Theorem first_prompt_position_none_until_drained
    (tk : option AnyTokenizer) (req : EngineCoreRequest)
    (p0 : LogprobsProcessor) :
  from_new_request tk req = Ok p0 → is_Some (num_prompt_logprobs p0) →
  (∀ lts : list LogprobsTensors,
     ∃ rest, prompt_logprobs (after_prompt_ops (map PromptUpdate lts) p0)
             = Some (None :: rest))
  ∧ (∀ ops : list prompt_op,
       ∃ rest, prompt_stream ops p0 = None :: rest).
Proof.
  intros Hnew Hen.
  pose proof (fresh_prompt_buffer tk req p0 Hnew Hen) as Hbuf.
  split.
  - intros lts. by eapply updates_keep_head.
  - intros ops. by eapply stream_keeps_head.
Qed.

Lemma first_prompt_position_none_until_drained_witness :
  (∀ lts : list LogprobsTensors,
     ∃ rest, prompt_logprobs
               (after_prompt_ops (map PromptUpdate lts) demo_processor)
             = Some (None :: rest))
  ∧ (∀ ops : list prompt_op,
       ∃ rest, prompt_stream ops demo_processor = None :: rest).
Proof.
  apply (first_prompt_position_none_until_drained None demo_request
           demo_processor).
  - reflexivity.
  - exists 1%Z. reflexivity.
Defined.

Section position_record.

Lemma dict_of_snoc (es : list (Z * Q * Z * option string))
    (i : Z) (l : Q) (r : Z) (t : option string) :
  dict_of (es ++ [(i, l, r, t)]) = <[i := mkLogprob l r t]> (dict_of es).
Proof. unfold dict_of. by rewrite foldl_app. Qed.

(** The entry of a key is the one inserted last under it. *)
Lemma dict_of_last_wins (es : list (Z * Q * Z * option string)) :
  ∀ (j : nat) (i : Z) (l : Q) (r : Z) (t : option string),
  es !! j = Some (i, l, r, t) →
  (∀ j' e, j < j' → es !! j' = Some e → e.1.1.1 ≠ i) →
  dict_of es !! i = Some (mkLogprob l r t).
Proof.
  induction es as [|[[[i' l'] r'] t'] es IH] using rev_ind;
    intros j i l r t Hj Hlast; [done|].
  rewrite dict_of_snoc.
  destruct (decide (j < length es)) as [Hlt|Hge].
  - rewrite lookup_app_l in Hj by done.
    assert (Hne : i' ≠ i).
    { apply (Hlast (length es) (i', l', r', t') Hlt).
      by rewrite lookup_app_r, Nat.sub_diag. }
    rewrite lookup_insert_ne by done.
    apply (IH j); [done|]. intros j' e Hjj' He.
    apply (Hlast j' e Hjj'). apply lookup_lt_Some in He as Hlen.
    by rewrite lookup_app_l.
  - apply lookup_lt_Some in Hj as Hlen. rewrite length_app in Hlen.
    simpl in Hlen. assert (j = length es) as -> by lia.
    rewrite lookup_app_r, Nat.sub_diag in Hj by done.
    injection Hj as -> -> -> ->. apply lookup_insert_eq.
Qed.

Lemma zip4_lookup (ids : list Z) :
  ∀ (lps : list Q) (ranks : list Z) (decoded : decoded_iter) (j : nat),
  zip4 ids lps ranks decoded !! j
  = (i ← ids !! j; l ← lps !! j; r ← ranks !! j;
     t ← decoded_at decoded j; Some (i, l, r, t)).
Proof.
  induction ids as [|i ids IH]; intros lps ranks decoded j; [done|].
  destruct lps as [|l lps].
  { simpl. destruct j; simpl; [done|]. by destruct (ids !! j). }
  destruct ranks as [|r ranks].
  { simpl. destruct j; simpl; [done|]. by destruct (ids !! j), (lps !! j). }
  destruct decoded as [|[|t toks]]; simpl.
  - destruct j; simpl; [done|]. by rewrite IH.
  - destruct j; simpl; [done|].
    by destruct (ids !! j), (lps !! j), (ranks !! j).
  - destruct j; simpl; [done|]. by rewrite IH.
Qed.



End position_record.




(** * The embedding on the sample data *)

Example from_new_request_demo :
  from_new_request None demo_request = Ok demo_processor.
Proof. reflexivity. Qed.

(** The stop trigger with a window of three values and the threshold 0.5:
    off after three values 1, off while the window refills, on after three
    values 0.1. *)
Example stop_off_after_high_values :
  check_conf_stop
    (calls _update_sample_logprobs
       [demo_step 1; demo_step 1; demo_step 1] demo_processor).2
  = Ok false.
Proof. reflexivity. Qed.

Example stop_off_before_full :
  check_conf_stop
    (calls _update_sample_logprobs
       [demo_step 0.1; demo_step 0.1] demo_processor).2
  = Ok false.
Proof. reflexivity. Qed.

Example stop_on_after_low_values :
  check_conf_stop
    (calls _update_sample_logprobs
       [demo_step 1; demo_step 1; demo_step 1;
        demo_step 0.1; demo_step 0.1; demo_step 0.1] demo_processor).2
  = Ok true.
Proof. reflexivity. Qed.

(** A window of size 0 is built, and the first token makes the update
    raise [IndexError], from [popleft] on the empty window; a negative size
    is refused at construction, by [deque]. *)
Example window_of_size_zero :
  ∃ p, from_new_request None
         (mkEngineCoreRequest (Some (mkSamplingParams (Some 2%Z) None
            (Some (mkExtraArgs (Some true) (Some 0%Z) None))))) = Ok p
       ∧ (_update_sample_logprobs (demo_step 1) p).1 = Raise IndexError.
Proof. eexists. split; reflexivity. Qed.

Example window_of_negative_size :
  from_new_request None
    (mkEngineCoreRequest (Some (mkSamplingParams (Some 2%Z) None
       (Some (mkExtraArgs (Some true) (Some (-1)%Z) None)))))
  = Raise ValueError.
Proof. reflexivity. Qed.

(** The confidence of a token with two alternatives of logprobs -1 and -2,
    and of a token without alternatives. *)
Example confidence_of_two_alternatives :
  new_conf_of [-0.5; -1; -2]%Q = Ok ((- (0 + -1 + -2)) / inject_Z 2)%Q
  ∧ (confidence [-0.5; -1; -2] == 1.5)%Q.
Proof. split; reflexivity. Qed.

Example confidence_without_alternatives :
  new_conf_of [-0.5]%Q = Ok 0%Q.
Proof. reflexivity. Qed.

(** Two drains in a row on the sample processor, and a drain with prompt
    logprobs disabled. *)
Example drain_twice :
  (calls (λ _ : unit, pop_prompt_logprobs) [(); ()] demo_processor).1
  = [Ok (Some [None]); Ok (Some [])].
Proof. reflexivity. Qed.

Example drain_disabled :
  (pop_prompt_logprobs (set_prompt_logprobs None demo_processor)).1
  = Ok None.
Proof. reflexivity. Qed.

(** * Further properties of the methods *)

Section loops.

Lemma for_each_app {A : Type} (body : A → M unit) (l1 l2 : list A)
    (p : LogprobsProcessor) :
  for_each body (l1 ++ l2) p
  = match for_each body l1 p with
    | (Ok _, q) => for_each body l2 q
    | (Raise e, q) => (Raise e, q)
    end.
Proof.
  revert p. induction l1 as [|x l1 IH]; intros p; simpl; [done|].
  unfold_method. destruct (body x p) as [[[]|e] q]; [|done]. apply IH.
Qed.

(** The records of a loop over tokens that all carry the sampled logprob,
    in the order of the tokens. *)
Lemma sample_tokens_records (its : list (Z * list Q * list Z)) :
  ∀ (p : LogprobsProcessor) (l : list (gmap Z Logprob)) (c : Q) (n : Z),
  wf p → logprobs p = Some l → cumulative_logprob p = Some c →
  num_logprobs p = Some n →
  Forall (λ it, it.1.2 ≠ []) its →
  (is_Some (conf_list p) → (0 < conf_group_size p)%Z) →
  logprobs (for_each sample_token its p).2
  = Some (l ++ map (sample_record (tokenizer p) n) its).
Proof.
  induction its as [|[[rank lps] ids] its IH];
    intros p l c n Hwf Hl Hc Hn Hne Hpos; simpl.
  - by rewrite app_nil_r.
  - apply Forall_cons in Hne as [Hrow Hne]. simpl in Hrow.
    destruct lps as [|lp alts]; [done|].
    destruct (sample_token_step rank lp alts ids p l c n Hwf Hl Hc Hn)
      as (Hl1 & Hc1 & Hh1 & Hwf1 & Hcfg1 & Hok1).
    specialize (Hok1 Hpos).
    rewrite (bind_snd_ok _ _ _ _ Hok1).
    set (p1 := (sample_token (rank, lp :: alts, ids) p).2) in *.
    pose proof Hcfg1 as (Hsz & _ & Htk & Hn1 & _).
    rewrite (IH p1 _ _ n Hwf1 Hl1 Hc1); try done.
    + by rewrite Htk, <- app_assoc.
    + by rewrite Hn1.
    + rewrite Hh1, Hsz. intros Hs. apply Hpos. by destruct (conf_list p).
Qed.

End loops.

(** X1: [_update_sample_logprobs] on a processor without sample logprobs
    raises [AssertionError], whatever the step, and leaves the processor
    as it is; so does [update_from_output] with such a step, and the prompt
    chunk of the same output is not recorded. *)
Theorem sample_update_disabled_raises (p : LogprobsProcessor)
    (ll : LogprobsLists) (lt : option LogprobsTensors) :
  num_logprobs p = None →
  _update_sample_logprobs ll p = (Raise AssertionError, p)
  ∧ update_from_output (mkEngineCoreOutput (Some ll) lt) p
    = (Raise AssertionError, p).
Proof.
  intros Hn.
  assert (Hs : _update_sample_logprobs ll p = (Raise AssertionError, p)).
  { unfold _update_sample_logprobs. unfold_method.
    rewrite bool_decide_eq_false_2; [done|]. rewrite Hn. by intros [? ?]. }
  split; [done|]. unfold update_from_output. simpl.
  unfold_method. by rewrite Hs.
Qed.

Lemma sample_update_disabled_raises_witness :
  let p := mkLogprobsProcessor 0 None None (-1) None None None
             (Some [None]) None None (Some 1%Z) in
  _update_sample_logprobs (demo_step 1) p = (Raise AssertionError, p)
  ∧ update_from_output (mkEngineCoreOutput (Some (demo_step 1))
                          (Some demo_chunk)) p
    = (Raise AssertionError, p).
Proof.
  apply (sample_update_disabled_raises _ (demo_step 1) (Some demo_chunk)).
  reflexivity.
Defined.

(** X2: [_update_prompt_logprobs] on a processor without prompt logprobs
    raises [AssertionError] and leaves the processor as it is. *)
Theorem prompt_update_disabled_raises (p : LogprobsProcessor)
    (lt : LogprobsTensors) :
  num_prompt_logprobs p = None →
  _update_prompt_logprobs lt p = (Raise AssertionError, p).
Proof.
  intros Hn. unfold _update_prompt_logprobs. unfold_method.
  rewrite bool_decide_eq_false_2; [done|]. rewrite Hn. by intros [? ?].
Qed.

Lemma prompt_update_disabled_raises_witness :
  let p := mkLogprobsProcessor 0 None None (-1) None None (Some [])
             None (Some 0%Q) (Some 2%Z) None in
  _update_prompt_logprobs demo_chunk p = (Raise AssertionError, p).
Proof.
  apply (prompt_update_disabled_raises _ demo_chunk). reflexivity.
Defined.

(** X3: a step with several tokens, on a processor with sample logprobs
    enabled, the window off or of a positive size, and every token carrying
    the sampled logprob: the update returns, appends the record of every
    token in the order of the step, each built from the token's own row,
    and adds the sampled logprobs of all the tokens to
    [cumulative_logprob]. *)
Theorem multi_token_step_records_all (p : LogprobsProcessor)
    (ll : LogprobsLists) (l : list (gmap Z Logprob)) (c : Q) (n : Z) :
  reachable p →
  logprobs p = Some l → cumulative_logprob p = Some c →
  num_logprobs p = Some n →
  (is_Some (conf_list p) → (0 < conf_group_size p)%Z) →
  Forall (λ lps, lps ≠ []) (step_rows ll) →
  let r := _update_sample_logprobs ll p in
  r.1 = Ok tt
  ∧ logprobs r.2
    = Some (l ++ map (sample_record (tokenizer p) n) (step_tokens ll))
  ∧ ∃ c', cumulative_logprob r.2 = Some c'
          ∧ (c' == c + sum (map sampled_logprob (step_rows ll)))%Q.
Proof.
  intros Hreach Hl Hc Hn Hpos Hrows r. subst r.
  apply reachable_wf in Hreach as Hwf.
  rewrite update_sample_enabled by (by rewrite ?Hl, ?Hc, ?Hn).
  assert (Hne : Forall (λ it : Z * list Q * list Z, it.1.2 ≠ [])
                  (step_tokens ll)).
  { unfold step_rows in Hrows. by rewrite Forall_map in Hrows. }
  destruct (sample_tokens_run (step_tokens ll) p l c n Hwf Hl Hc Hn Hne Hpos)
    as (Hok & _ & _ & _ & ds & c' & _ & _ & Hc' & Hsum).
  split_and!.
  - done.
  - by apply (sample_tokens_records _ p l c n).
  - exists c'. split; [done|]. unfold step_rows. by rewrite map_map.
Qed.

Lemma multi_token_step_records_all_witness :
  let r := _update_sample_logprobs (demo_step3 1) demo_processor in
  r.1 = Ok tt
  ∧ logprobs r.2
    = Some ([] ++ map (sample_record (tokenizer demo_processor) 2)
                    (step_tokens (demo_step3 1)))
  ∧ ∃ c', cumulative_logprob r.2 = Some c'
          ∧ (c' == 0 + sum (map sampled_logprob
                               (step_rows (demo_step3 1))))%Q.
Proof.
  apply (multi_token_step_records_all demo_processor (demo_step3 1)
           [] 0%Q 2%Z).
  - apply (reach_new None demo_request). reflexivity.
  - reflexivity.
  - reflexivity.
  - reflexivity.
  - reflexivity.
  - repeat constructor; discriminate.
Defined.

(** X4: a token without any logprob makes the update raise [IndexError]:
    the tokens before it in the step are recorded, the token itself and
    the tokens after it are not. *)
Theorem empty_row_raises_after_earlier_tokens (p : LogprobsProcessor)
    (ll : LogprobsLists) (l : list (gmap Z Logprob)) (c : Q) (n : Z)
    (before after : list (Z * list Q * list Z)) (rank : Z) (ids : list Z) :
  reachable p →
  logprobs p = Some l → cumulative_logprob p = Some c →
  num_logprobs p = Some n →
  (is_Some (conf_list p) → (0 < conf_group_size p)%Z) →
  step_tokens ll = before ++ (rank, [], ids) :: after →
  Forall (λ it, it.1.2 ≠ []) before →
  let r := _update_sample_logprobs ll p in
  r.1 = Raise IndexError
  ∧ logprobs r.2 = Some (l ++ map (sample_record (tokenizer p) n) before).
Proof.
  intros Hreach Hl Hc Hn Hpos Htoks Hne r. subst r.
  apply reachable_wf in Hreach as Hwf.
  rewrite update_sample_enabled by (by rewrite ?Hl, ?Hc, ?Hn).
  rewrite Htoks, for_each_app.
  destruct (sample_tokens_run before p l c n Hwf Hl Hc Hn Hne Hpos)
    as (Hok & _).
  pose proof (sample_tokens_records before p l c n Hwf Hl Hc Hn Hne Hpos)
    as Hrec.
  destruct (for_each sample_token before p) as [o q]. simpl in *.
  subst o. by split.
Qed.

Lemma empty_row_raises_after_earlier_tokens_witness :
  let ll := mkLogprobsLists [[7; 8]; [9]; [7; 8]]%Z
              [[-0.5; -1]; []; [-0.5; -1]]%Q [1; 1; 1]%Z in
  let r := _update_sample_logprobs ll demo_processor in
  r.1 = Raise IndexError
  ∧ logprobs r.2
    = Some ([] ++ map (sample_record (tokenizer demo_processor) 2)
                    [(1%Z, [-0.5; -1]%Q, [7; 8]%Z)]).
Proof.
  apply (empty_row_raises_after_earlier_tokens demo_processor
           (mkLogprobsLists [[7; 8]; [9]; [7; 8]]%Z
              [[-0.5; -1]; []; [-0.5; -1]]%Q [1; 1; 1]%Z)
           [] 0%Q 2%Z
           [(1%Z, [-0.5; -1]%Q, [7; 8]%Z)]
           [(1%Z, [-0.5; -1]%Q, [7; 8]%Z)] 1%Z [9%Z]).
  - apply (reach_new None demo_request). reflexivity.
  - reflexivity.
  - reflexivity.
  - reflexivity.
  - reflexivity.
  - reflexivity.
  - repeat constructor; discriminate.
Defined.

Section invariants.

Lemma for_each_inv {A : Type} (I : LogprobsProcessor → Prop)
    (body : A → M unit) (l : list A) :
  (∀ x p, I p → I (body x p).2) →
  ∀ p, I p → I (for_each body l p).2.
Proof.
  intros Hbody. induction l as [|x l IH]; intros p Hp; simpl; [done|].
  destruct (body x p).1 as [[]|e] eqn:Hx.
  - rewrite (bind_snd_ok _ _ _ _ Hx). by apply IH, Hbody.
  - rewrite (bind_snd_raise _ _ _ _ Hx). by apply Hbody.
Qed.

(** An invariant of the four mutating methods holds on every processor a
    request can be in. *)
Lemma reachable_inv (I : LogprobsProcessor → Prop) :
  (∀ tk req p, from_new_request tk req = Ok p → I p) →
  (∀ ll p, I p → I (_update_sample_logprobs ll p).2) →
  (∀ lt p, I p → I (_update_prompt_logprobs lt p).2) →
  (∀ p, I p → I (pop_prompt_logprobs p).2) →
  ∀ p, reachable p → I p.
Proof.
  intros Hnew Hsample Hprompt Hpop p Hreach.
  induction Hreach as [tk req p Hp|out p _ IH|ll p _ IH|lt p _ IH|p _ IH];
    eauto.
  unfold update_from_output.
  destruct (new_logprobs out) as [ll|].
  - destruct (_update_sample_logprobs ll p).1 as [[]|e] eqn:Hs.
    + rewrite (bind_snd_ok _ _ _ _ Hs).
      destruct (new_prompt_logprobs_tensors out) as [lt|].
      * by apply Hprompt, Hsample.
      * by apply Hsample.
    + rewrite (bind_snd_raise _ _ _ _ Hs). by apply Hsample.
  - unfold_method. simpl.
    destruct (new_prompt_logprobs_tensors out) as [lt|].
    + by apply Hprompt.
    + done.
Qed.

Lemma only_prompt_buffer_refl (p : LogprobsProcessor) :
  only_prompt_buffer p p.
Proof. unfold only_prompt_buffer. by destruct p. Qed.

Lemma only_prompt_buffer_trans (p q r : LogprobsProcessor) :
  only_prompt_buffer p q → only_prompt_buffer q r → only_prompt_buffer p r.
Proof.
  unfold only_prompt_buffer. intros Hq Hr. rewrite Hr, Hq. by destruct p.
Qed.

Lemma prompt_position_only_buffer (decoded : option (list string))
    (k : nat) (rows : list (list Q)) (ids : list (list Z))
    (ranks : list Z) (pos : nat) (p : LogprobsProcessor) :
  only_prompt_buffer p (prompt_position decoded k rows ids ranks pos p).2.
Proof.
  unfold prompt_position. unfold_method.
  destruct (prompt_logprobs p) as [buf|] eqn:Hbuf;
    [|by apply only_prompt_buffer_refl].
  destruct (index rows pos); [|by apply only_prompt_buffer_refl].
  destruct (index ids pos); [|by apply only_prompt_buffer_refl].
  destruct (index ranks pos); [|by apply only_prompt_buffer_refl].
  destruct (num_prompt_logprobs p) as [n|] eqn:Hn;
    [|by apply only_prompt_buffer_refl].
  done.
Qed.

Lemma update_prompt_only_buffer (lt : LogprobsTensors)
    (p : LogprobsProcessor) :
  only_prompt_buffer p (_update_prompt_logprobs lt p).2.
Proof.
  destruct (update_prompt_cases lt p) as [-> | ->].
  - apply only_prompt_buffer_refl.
  - apply (for_each_inv (only_prompt_buffer p)).
    + intros pos q Hq. eapply only_prompt_buffer_trans; [done|].
      apply prompt_position_only_buffer.
    + apply only_prompt_buffer_refl.
Qed.

Lemma pop_only_buffer (p : LogprobsProcessor) :
  only_prompt_buffer p (pop_prompt_logprobs p).2.
Proof.
  unfold pop_prompt_logprobs. unfold_method.
  destruct (prompt_logprobs p) as [[|x buf]|] eqn:Hbuf; simpl;
    try apply only_prompt_buffer_refl.
  done.
Qed.

End invariants.

Section window_history.

(** The window after the confidence block, on a well-formed window. *)
Lemma update_conf_window (lps : list Q) (p : LogprobsProcessor)
    (h : list Q) (d : deque) :
  conf_list p = Some h → conf_group_list p = Some d → window_ok p d →
  ∃ d',
    conf_list (update_conf lps p).2 = Some (h ++ [confidence lps])
    ∧ conf_group_list (update_conf lps p).2 = Some d'
    ∧ conf_group_size (update_conf lps p).2 = conf_group_size p
    ∧ items d'
      = if decide (deque_len d < conf_group_size p)%Z
        then items d ++ [confidence lps]
        else match items d with
             | [] => []
             | _ :: l => l ++ [confidence lps]
             end.
Proof.
  intros Hh Hd (Hmax & Hlen & Hsum).
  destruct (new_conf_of_ok lps) as [c Hc].
  assert (Hconf : confidence lps = c) by (unfold confidence; by rewrite Hc).
  rewrite Hconf.
  unfold update_conf. unfold_method. rewrite Hh, Hc. simpl. rewrite Hd.
  destruct (decide (deque_len d < conf_group_size p)%Z) as [Hroom|Hfull];
    simpl.
  - exists (deque_append c d). rewrite deque_append_room by lia. done.
  - unfold deque_popleft. destruct (items d) as [|x l] eqn:Hit; simpl.
    + exists d. by rewrite Hd, Hit.
    + assert (Hl : (Z.of_nat (length l) + 1 = maxlen d)%Z).
      { unfold deque_len in *. rewrite Hit in *. simpl in *. lia. }
      exists (deque_append c (mkDeque (maxlen d) l)).
      rewrite deque_append_room by (unfold deque_len; simpl; lia). done.
Qed.

Lemma history_tail_room (h its : list Q) (c : Q) (w : nat) :
  its = drop (length h - w) h → length its < w →
  its ++ [c] = drop (length (h ++ [c]) - w) (h ++ [c]).
Proof.
  intros -> Hlt. rewrite length_drop in Hlt. rewrite length_app. simpl.
  replace (length h - w) with 0 by lia.
  replace (length h + 1 - w) with 0 by lia. done.
Qed.

Lemma history_tail_full (h l : list Q) (x c : Q) (w : nat) :
  x :: l = drop (length h - w) h → length (x :: l) = w →
  l ++ [c] = drop (length (h ++ [c]) - w) (h ++ [c]).
Proof.
  intros Heq Hlen. rewrite length_app. simpl in *.
  assert (Hge : w ≤ length h).
  { rewrite <- Hlen. change (S (length l)) with (length (x :: l)).
    rewrite Heq, length_drop. lia. }
  replace (length h + 1 - w) with (length h - w + 1) by lia.
  rewrite drop_app_le by lia. f_equal.
  rewrite <- drop_drop, <- Heq. done.
Qed.

Lemma update_conf_history_tail (lps : list Q) (p : LogprobsProcessor) :
  wf p → window_is_history_tail p →
  window_is_history_tail (update_conf lps p).2.
Proof.
  intros Hwf Htail. pose proof Hwf as ((Hcl & _ & Hwin) & _).
  destruct (conf_list p) as [h|] eqn:Hh; cycle 1.
  { rewrite update_conf_disabled by done. simpl.
    intros h d Hh'. by rewrite Hh in Hh'. }
  destruct (proj1 Hcl) as [d Hd]; [by eauto|].
  pose proof (Hwin d Hd) as Hok.
  destruct (update_conf_window lps p h d Hh Hd Hok)
    as (d' & Hh' & Hd' & Hsz & Hit).
  destruct Hok as (_ & Hlen & _). unfold deque_len in *.
  specialize (Htail h d Hh Hd).
  intros h2 d2 Hh2 Hd2. rewrite Hh' in Hh2. rewrite Hd' in Hd2.
  injection Hh2 as <-. injection Hd2 as <-. rewrite Hsz, Hit.
  destruct (decide _) as [Hroom|Hfull].
  - apply history_tail_room; [done|lia].
  - destruct (items d) as [|x l] eqn:Hits.
    + simpl in *. assert (Z.to_nat (conf_group_size p) = 0) as -> by lia.
      rewrite Nat.sub_0_r. by rewrite drop_all.
    + apply (history_tail_full h l x); [done|]. simpl in *. lia.
Qed.

Lemma sample_token_history_tail (it : Z * list Q * list Z)
    (p : LogprobsProcessor) :
  wf p ∧ window_is_history_tail p →
  wf (sample_token it p).2 ∧ window_is_history_tail (sample_token it p).2.
Proof.
  intros [Hwf Htail].
  split; [by apply (sample_token_preserves it p)|].
  destruct it as [[rank lps] ids].
  destruct lps as [|lp alts]; [done|].
  destruct (cumulative_logprob p) as [c|] eqn:Hc; cycle 1.
  { unfold sample_token. unfold_method. simpl. by rewrite Hc. }
  pose proof Hwf as (Hconf & (Hs1 & Hs2) & Hprompt).
  destruct (proj1 Hs2) as [n Hn]; [by rewrite Hc|].
  destruct (proj2 Hs1) as [l Hl]; [by rewrite Hn|].
  rewrite (sample_token_enabled _ _ _ _ _ l c n) by done.
  apply update_conf_history_tail; [|done].
  split; [done|split; [|done]].
  unfold sample_wf; simpl. rewrite Hn. split; split; by eauto.
Qed.

Lemma only_prompt_buffer_history_tail (p q : LogprobsProcessor) :
  only_prompt_buffer p q →
  window_is_history_tail p → window_is_history_tail q.
Proof. intros -> Htail. exact Htail. Qed.

End window_history.

Section reachable_history.

Lemma reachable_history_tail (p : LogprobsProcessor) :
  reachable p → window_is_history_tail p.
Proof.
  intros Hreach.
  apply (reachable_inv (λ p, wf p ∧ window_is_history_tail p)); [| | | |done].
  - intros tk req p0 Hnew. split; [by eapply from_new_request_wf|].
    intros h d Hh Hd. unfold from_new_request in Hnew.
    destruct (sampling_params req) as [[nl npl ea]|]; [|done].
    simpl in Hnew.
    destruct ea as [[en ws th]|]; simpl in Hnew;
      [destruct (default false en);
       [unfold deque_new in Hnew; destruct (decide _); [done|]|]|];
      injection Hnew as <-; simpl in *; try done.
    injection Hh as <-. by injection Hd as <-.
  - intros ll p0 Hp0. destruct (update_sample_cases ll p0) as [-> | ->];
      [done|]. by apply for_each_inv; [apply sample_token_history_tail|].
  - intros lt p0 [Hwf Htail]. split.
    + by apply update_prompt_preserves.
    + eapply only_prompt_buffer_history_tail; [|done].
      apply update_prompt_only_buffer.
  - intros p0 [Hwf Htail]. split.
    + by apply pop_preserves.
    + eapply only_prompt_buffer_history_tail; [|done].
      apply pop_only_buffer.
Qed.


End reachable_history.

(** X5: on every processor a request can be in, the confidence window
    holds the last [conf_group_size] values of the history [conf_list], in
    their order, or the whole history while it is shorter: the window is
    first in, first out. *)
Theorem window_holds_last_values (p : LogprobsProcessor)
    (h : list Q) (d : deque) :
  reachable p → conf_list p = Some h → conf_group_list p = Some d →
  items d = drop (length h - Z.to_nat (conf_group_size p)) h.
Proof.
  intros Hreach Hh Hd. by apply reachable_history_tail.
Qed.

Lemma window_holds_last_values_witness :
  let p := (_update_sample_logprobs (demo_step 0.1)
              (_update_sample_logprobs (demo_step3 1) demo_processor).2).2 in
  ∃ h d, conf_list p = Some h ∧ conf_group_list p = Some d
         ∧ length h = 4
         ∧ items d = drop (length h - Z.to_nat (conf_group_size p)) h.
Proof.
  intros p. eexists _, _.
  split; [reflexivity|]. split; [reflexivity|]. split; [reflexivity|].
  apply (window_holds_last_values p).
  - apply reach_sample, reach_sample.
    apply (reach_new None demo_request). reflexivity.
  - reflexivity.
  - reflexivity.
Defined.

Section frames.

Lemma keeps_prompt_side_refl (p : LogprobsProcessor) : keeps_prompt_side p p.
Proof. split; [done|apply same_config_refl]. Qed.

Lemma keeps_prompt_side_trans (p q r : LogprobsProcessor) :
  keeps_prompt_side p q → keeps_prompt_side q r → keeps_prompt_side p r.
Proof.
  intros [Hb1 Hc1] [Hb2 Hc2]. split; [congruence|].
  by eapply same_config_trans.
Qed.

Lemma update_conf_keeps_prompt_side (lps : list Q) (p : LogprobsProcessor) :
  keeps_prompt_side p (update_conf lps p).2.
Proof.
  unfold update_conf. unfold_method.
  destruct (conf_list p) as [h|]; [|by apply keeps_prompt_side_refl].
  destruct (new_conf_of lps) as [c|e]; [|by apply keeps_prompt_side_refl].
  simpl. destruct (conf_group_list p) as [d|]; [|by repeat split].
  destruct (decide _); simpl; [by repeat split|].
  destruct (deque_popleft d) as [[x d']|e]; by repeat split.
Qed.

Lemma sample_token_keeps_prompt_side (it : Z * list Q * list Z)
    (p : LogprobsProcessor) :
  keeps_prompt_side p (sample_token it p).2.
Proof.
  destruct it as [[rank lps] ids]. unfold sample_token. unfold_method.
  destruct (index lps 0) as [lp|e]; [|by apply keeps_prompt_side_refl].
  destruct (cumulative_logprob p) as [c|];
    [|by apply keeps_prompt_side_refl].
  simpl. destruct (logprobs p) as [l|]; [|by repeat split].
  destruct (num_logprobs p) as [n|]; [|by repeat split].
  simpl.
  eapply keeps_prompt_side_trans; [|apply update_conf_keeps_prompt_side].
  by repeat split.
Qed.

Lemma update_sample_keeps_prompt_side (ll : LogprobsLists)
    (p : LogprobsProcessor) :
  keeps_prompt_side p (_update_sample_logprobs ll p).2.
Proof.
  destruct (update_sample_cases ll p) as [-> | ->].
  - apply keeps_prompt_side_refl.
  - apply (for_each_inv (keeps_prompt_side p)).
    + intros it q Hq. eapply keeps_prompt_side_trans; [done|].
      apply sample_token_keeps_prompt_side.
    + apply keeps_prompt_side_refl.
Qed.

End frames.

(** X6: the two sides of the processor do not touch each other.  A prompt
    update and a drain change nothing but the prompt buffer: the sample
    records, the cumulative logprob, the history, the window and its sum
    stay.  A sample update leaves the prompt buffer as it is.  No method
    changes the configuration. *)
Theorem sample_and_prompt_sides_are_separate (p : LogprobsProcessor)
    (ll : LogprobsLists) (lt : LogprobsTensors) :
  (_update_prompt_logprobs lt p).2
  = set_prompt_logprobs (prompt_logprobs (_update_prompt_logprobs lt p).2) p
  ∧ (pop_prompt_logprobs p).2
    = set_prompt_logprobs (prompt_logprobs (pop_prompt_logprobs p).2) p
  ∧ prompt_logprobs (_update_sample_logprobs ll p).2 = prompt_logprobs p
  ∧ same_config p (_update_sample_logprobs ll p).2.
Proof.
  split_and!.
  - apply update_prompt_only_buffer.
  - apply pop_only_buffer.
  - apply update_sample_keeps_prompt_side.
  - apply update_sample_keeps_prompt_side.
Qed.

Section record_entries.

Lemma rank_lookup (true_rank k : Z) (j : nat) (r : Z) :
  (true_rank :: range 1 (k + 1)) !! j = Some r
  ↔ r = rank_at true_rank j ∧ (j = 0 ∨ (Z.of_nat j ≤ k)%Z).
Proof.
  unfold rank_at. destruct j as [|j]; simpl.
  - split; [intros [= <-]; by eauto|by intros [-> _]].
  - unfold range. rewrite lookup_seqZ. split.
    + intros [-> Hlt]. split; [lia|right; lia].
    + intros [-> [Hj|Hj]]; [done|]. split; lia.
Qed.

(** Every entry of the dict was inserted from some position. *)
Lemma dict_of_lookup_inv (es : list (Z * Q * Z * option string))
    (i : Z) (e : Logprob) :
  dict_of es !! i = Some e →
  ∃ j l r t, es !! j = Some (i, l, r, t) ∧ e = mkLogprob l r t.
Proof.
  induction es as [|[[[i' l'] r'] t'] es IH] using rev_ind; [done|].
  rewrite dict_of_snoc. destruct (decide (i' = i)) as [->|Hne].
  - rewrite lookup_insert_eq. intros [= <-].
    exists (length es), l', r', t'. split; [|done].
    by rewrite lookup_app_r, Nat.sub_diag.
  - rewrite lookup_insert_ne by done. intros He.
    destruct (IH He) as (j & l & r & t & Hj & ->).
    exists j, l, r, t. split; [|done].
    apply lookup_lt_Some in Hj as Hlt. by rewrite lookup_app_l.
Qed.

Lemma dict_of_size (es : list (Z * Q * Z * option string)) :
  size (dict_of es) ≤ length es.
Proof.
  induction es as [|[[[i l] r] t] es IH] using rev_ind; [done|].
  rewrite dict_of_snoc, length_app. simpl.
  destruct (dict_of es !! i) as [e|] eqn:He.
  - rewrite map_size_insert_Some by done. lia.
  - rewrite map_size_insert_None by done. lia.
Qed.

Lemma zip4_length_le (ids : list Z) (lps : list Q) (ranks : list Z)
    (decoded : decoded_iter) :
  length (zip4 ids lps ranks decoded)
  ≤ length ids `min` (length lps `min` length ranks).
Proof.
  revert lps ranks decoded.
  induction ids as [|i ids IH]; intros [|l lps] [|r ranks] decoded; simpl;
    try lia.
  destruct decoded as [|[|t toks]]; simpl; try lia.
  - specialize (IH lps ranks NONES). lia.
  - specialize (IH lps ranks (Tokens toks)). lia.
Qed.

End record_entries.

(** X7: when the top-k token ids of a position are distinct, the record
    has, for every position [j] of the row within the [k] requested and
    with a logprob and a decoded token, the entry of the id at [j]: its
    logprob, its decoded token, and its rank, the rank of the distinguished
    token at position 0 and [j] at a top-k position [j]. *)
Theorem record_of_distinct_ids (lps : list Q) (ids : list Z)
    (decoded : decoded_iter) (true_rank k : Z) (j : nat) (i : Z) (l : Q)
    (t : option string) :
  NoDup ids →
  ids !! j = Some i → lps !! j = Some l → decoded_at decoded j = Some t →
  (Z.of_nat j ≤ topk_count lps k)%Z →
  _make_logprob_dict lps ids decoded true_rank k !! i
  = Some (mkLogprob l (rank_at true_rank j) t).
Proof.
  intros Hnd Hi Hl Ht Hjk. unfold _make_logprob_dict.
  fold (topk_count lps k).
  set (ranks := true_rank :: range 1 (topk_count lps k + 1)).
  assert (Hr : ranks !! j = Some (rank_at true_rank j)).
  { apply rank_lookup. split; [done|]. by right. }
  apply (dict_of_last_wins _ j).
  - by rewrite zip4_lookup, Hi, Hl, Hr, Ht.
  - intros j' [[[i' l'] r'] t'] Hjj' He. simpl.
    rewrite zip4_lookup in He.
    destruct (ids !! j') as [i''|] eqn:Hi'; [|done]. simpl in He.
    destruct (lps !! j'); [|done]. simpl in He.
    destruct (ranks !! j'); [|done]. simpl in He.
    destruct (decoded_at decoded j'); [|done]. simpl in He.
    injection He as -> _ _ _. intros ->.
    pose proof (NoDup_lookup _ _ _ _ Hnd Hi Hi'). lia.
Qed.

Lemma record_of_distinct_ids_witness :
  _make_logprob_dict [-0.5; -1; -2]%Q [5; 6; 7]%Z NONES 9 2 !! 6%Z
  = Some (mkLogprob (-1) (rank_at 9 1) None).
Proof.
  apply (record_of_distinct_ids [-0.5; -1; -2]%Q [5; 6; 7]%Z NONES 9 2 1
           6 (-1)%Q None).
  - apply (bool_decide_unpack (NoDup [5; 6; 7]%Z)). vm_compute. exact I.
  - reflexivity.
  - reflexivity.
  - reflexivity.
  - vm_compute. discriminate.
Defined.

(** X8: a record holds nothing but what its row holds.  Every entry of the
    record is the entry of a position [j] of the row: the key is the id at
    [j], within the [k] requested, and the entry has the logprob, the rank
    and the decoded token laid out for [j].  The record has no more entries
    than token ids, than logprobs, or than [k + 1]. *)
Theorem record_entries_come_from_row (lps : list Q) (ids : list Z)
    (decoded : decoded_iter) (true_rank k : Z) :
  (∀ (i : Z) (e : Logprob),
     _make_logprob_dict lps ids decoded true_rank k !! i = Some e →
     ∃ j, ids !! j = Some i
          ∧ lps !! j = Some (logprob e)
          ∧ decoded_at decoded j = Some (decoded_token e)
          ∧ rank e = rank_at true_rank j
          ∧ (j = 0 ∨ (Z.of_nat j ≤ topk_count lps k)%Z))
  ∧ size (_make_logprob_dict lps ids decoded true_rank k) ≤ length ids
  ∧ size (_make_logprob_dict lps ids decoded true_rank k) ≤ length lps
  ∧ (Z.of_nat (size (_make_logprob_dict lps ids decoded true_rank k))
     ≤ 1 + Z.max 0 (topk_count lps k))%Z.
Proof.
  unfold _make_logprob_dict. fold (topk_count lps k).
  set (ranks := true_rank :: range 1 (topk_count lps k + 1)).
  pose proof (dict_of_size (zip4 ids lps ranks decoded)) as Hsize.
  pose proof (zip4_length_le ids lps ranks decoded) as Hlen.
  assert (Hranks : Z.of_nat (length ranks)
                   = (1 + Z.max 0 (topk_count lps k))%Z).
  { subst ranks. simpl. unfold range. rewrite length_seqZ. lia. }
  split_and!; try lia.
  intros i e He.
  apply dict_of_lookup_inv in He as (j & l & r & t & Hj & ->).
  rewrite zip4_lookup in Hj.
  destruct (ids !! j) as [i'|] eqn:Hi; [|done]. simpl in Hj.
  destruct (lps !! j) as [l'|] eqn:Hl; [|done]. simpl in Hj.
  destruct (ranks !! j) as [r'|] eqn:Hr; [|done]. simpl in Hj.
  destruct (decoded_at decoded j) as [t'|] eqn:Ht; [|done]. simpl in Hj.
  injection Hj as -> -> -> ->.
  apply rank_lookup in Hr as [-> Hjk]. exists j. by split_and!.
Qed.

(** X9: asking for at least as many logprobs as the row holds, beyond the
    distinguished one, gives the record of the request [-1], for all of
    them. *)
Theorem record_with_large_k_is_all (lps : list Q) (ids : list Z)
    (decoded : decoded_iter) (true_rank k : Z) :
  (Z.of_nat (length lps) - 1 ≤ k)%Z →
  _make_logprob_dict lps ids decoded true_rank k
  = _make_logprob_dict lps ids decoded true_rank (-1).
Proof.
  intros Hk. unfold _make_logprob_dict. f_equal.
  apply list_eq. intros j. rewrite !zip4_lookup.
  destruct (ids !! j) as [i|]; [|done]. simpl.
  destruct (lps !! j) as [l|] eqn:Hl; [|done]. simpl.
  apply lookup_lt_Some in Hl.
  destruct (decide (k = -1)%Z) as [->|Hne]; [done|].
  destruct (decide (-1 = -1)%Z) as [_|?]; [|done].
  assert (Hr : ∀ k', (Z.of_nat (length lps) - 1 ≤ k')%Z →
            (true_rank :: range 1 (k' + 1)) !! j
            = Some (rank_at true_rank j)).
  { intros k' Hk'. apply rank_lookup. split; [done|]. lia. }
  by rewrite !Hr by lia.
Qed.

Lemma record_with_large_k_is_all_witness :
  _make_logprob_dict [-0.5; -1; -2]%Q [5; 6; 7]%Z NONES 9 20
  = _make_logprob_dict [-0.5; -1; -2]%Q [5; 6; 7]%Z NONES 9 (-1).
Proof.
  apply (record_with_large_k_is_all [-0.5; -1; -2]%Q [5; 6; 7]%Z NONES 9 20).
  vm_compute. discriminate.
Defined.

(** X10: with no logprob requested, [k = 0], or a negative number other
    than [-1], the record of a row holds the distinguished token alone, with
    its own rank. *)
Theorem record_without_alternatives (l : Q) (lps : list Q) (i : Z)
    (ids : list Z) (decoded : decoded_iter) (t : option string)
    (true_rank k : Z) :
  (k ≤ 0)%Z → k ≠ (-1)%Z → decoded_at decoded 0 = Some t →
  _make_logprob_dict (l :: lps) (i :: ids) decoded true_rank k
  = {[ i := mkLogprob l true_rank t ]}.
Proof.
  intros Hk Hne Ht. unfold _make_logprob_dict.
  destruct (decide (k = -1)%Z) as [?|_]; [done|].
  unfold range. rewrite seqZ_nil by lia.
  destruct decoded as [|[|t' toks]]; simpl in *.
  - injection Ht as <-. by destruct ids, lps.
  - done.
  - injection Ht as <-. by destruct ids, lps.
Qed.

Lemma record_without_alternatives_witness :
  _make_logprob_dict [-0.5; -1; -2]%Q [5; 6; 7]%Z NONES 9 0
  = {[ 5%Z := mkLogprob (-0.5) 9 None ]}.
Proof.
  apply (record_without_alternatives (-0.5)%Q [-1; -2]%Q 5 [6; 7]%Z NONES
           None 9 0); [lia|lia|reflexivity].
Defined.

Section without_tokenizer.

Lemma record_with_nones_text_free (lps : list Q) (ids : list Z)
    (true_rank k : Z) :
  text_free_record (_make_logprob_dict lps ids NONES true_rank k).
Proof.
  intros i e He. unfold _make_logprob_dict in He.
  apply dict_of_lookup_inv in He as (j & l & r & t & Hj & ->).
  rewrite zip4_lookup in Hj.
  destruct (ids !! j); [|done]. simpl in Hj.
  destruct (lps !! j); [|done]. simpl in Hj.
  destruct (_ !! j); [|done]. simpl in Hj.
  by injection Hj as _ _ _ <-.
Qed.

Lemma sample_token_no_text (p0 : LogprobsProcessor)
    (it : Z * list Q * list Z) (p : LogprobsProcessor) :
  no_text_inv p0 p → no_text_inv p0 (sample_token it p).2.
Proof.
  intros (Hwf & Htk & Hfree).
  destruct (sample_token_preserves it p Hwf) as [Hwf' Hcfg].
  pose proof Hcfg as (_ & _ & Htk' & _).
  split; [done|]. split; [congruence|]. intros Hnone.
  destruct (Hfree Hnone) as [Hsample Hprompt].
  destruct (sample_token_keeps_prompt_side it p) as [Hbuf _].
  split; [|by rewrite Hbuf].
  destruct it as [[rank lps] ids].
  destruct lps as [|lp alts]; [done|].
  destruct (cumulative_logprob p) as [c|] eqn:Hc; cycle 1.
  { unfold sample_token. unfold_method. simpl. by rewrite Hc. }
  pose proof Hwf as (_ & (Hs1 & Hs2) & _).
  destruct (proj1 Hs2) as [n Hn]; [by rewrite Hc|].
  destruct (proj2 Hs1) as [l Hl]; [by rewrite Hn|].
  destruct (sample_token_step rank lp alts ids p l c n Hwf Hl Hc Hn)
    as (Hl' & _).
  intros l' Hl''. rewrite Hl' in Hl''. injection Hl'' as <-.
  apply Forall_app. split; [by apply Hsample|].
  apply Forall_singleton. rewrite Htk, Hnone. simpl.
  apply record_with_nones_text_free.
Qed.

Lemma prompt_position_no_text (p0 : LogprobsProcessor)
    (toks : list Z) (k : nat) (rows : list (list Q)) (ids : list (list Z))
    (ranks : list Z) (pos : nat) (p : LogprobsProcessor) :
  no_text_inv p0 p →
  no_text_inv p0
    (prompt_position
       (match tokenizer p0 with None => None | Some tk => Some (tk toks) end)
       k rows ids ranks pos p).2.
Proof.
  intros (Hwf & Htk & Hfree).
  set (decoded := match tokenizer p0 with
                  | None => None
                  | Some tk => Some (tk toks)
                  end).
  destruct (prompt_position_preserves decoded k rows ids ranks pos p Hwf)
    as [Hwf' (_ & _ & Htk' & _)].
  split; [done|]. split; [congruence|]. intros Hnone.
  destruct (Hfree Hnone) as [Hsample Hprompt].
  pose proof (prompt_position_only_buffer decoded k rows ids ranks pos p)
    as Honly.
  split; [by rewrite Honly|].
  unfold prompt_position. unfold_method.
  destruct (prompt_logprobs p) as [buf|] eqn:Hbuf;
    [|simpl; rewrite ?Hbuf; exact Hprompt].
  destruct (index rows pos); [|simpl; rewrite ?Hbuf; exact Hprompt].
  destruct (index ids pos); [|simpl; rewrite ?Hbuf; exact Hprompt].
  destruct (index ranks pos); [|simpl; rewrite ?Hbuf; exact Hprompt].
  destruct (num_prompt_logprobs p) as [n|] eqn:Hn;
    [|simpl; rewrite ?Hbuf; exact Hprompt].
  simpl. intros buf' [= <-]. apply Forall_app. split; [by apply Hprompt|].
  apply Forall_singleton. intros rec [= <-].
  subst decoded. rewrite Hnone. apply record_with_nones_text_free.
Qed.

End without_tokenizer.

(** X11: on a processor without a tokenizer, whatever the updates and the
    drains, no entry of any sample record or prompt record has a decoded
    token. *)
Theorem no_tokenizer_no_decoded_token (p : LogprobsProcessor) :
  reachable p → tokenizer p = None →
  (∀ l rec i e,
     logprobs p = Some l → rec ∈ l → rec !! i = Some e →
     decoded_token e = None)
  ∧ (∀ buf rec i e,
       prompt_logprobs p = Some buf → Some rec ∈ buf → rec !! i = Some e →
       decoded_token e = None).
Proof.
  intros Hreach Hnone.
  assert (Hinv : wf p ∧ (tokenizer p = None → text_free p)).
  { clear Hnone. revert p Hreach. apply reachable_inv.
    - intros tk req p Hnew. split; [by eapply from_new_request_wf|].
      intros _. unfold from_new_request in Hnew.
      destruct (sampling_params req) as [[nl npl ea]|]; [|done].
      simpl in Hnew.
      assert (Hfresh : ∀ a b c d e,
        text_free (mkLogprobsProcessor a b c d e tk
          (match nl with None => None | Some _ => Some [] end)
          (match npl with None => None | Some _ => Some [None] end)
          (match nl with None => None | Some _ => Some 0%Q end) nl npl)).
      { intros. split; simpl.
        - intros l Hl. destruct nl; [|done]. by injection Hl as <-.
        - intros buf Hbuf. destruct npl; [|done]. injection Hbuf as <-.
          by apply Forall_singleton. }
      destruct ea as [[en ws th]|]; simpl in Hnew;
        [destruct (default false en);
         [destruct (deque_new _); [|done]|]|];
        injection Hnew as <-; apply Hfresh.
    - intros ll p [Hwf Hfree].
      assert (Hstart : no_text_inv p p) by (by split_and!).
      assert (Hend : no_text_inv p (_update_sample_logprobs ll p).2).
      { destruct (update_sample_cases ll p) as [-> | ->]; [done|].
        apply for_each_inv; [|done]. intros it q.
        apply sample_token_no_text. }
      destruct Hend as (Hwf' & Htk & Hfree').
      split; [done|]. rewrite Htk. done.
    - intros lt p [Hwf Hfree].
      assert (Hstart : no_text_inv p p) by (by split_and!).
      assert (Hend : no_text_inv p (_update_prompt_logprobs lt p).2).
      { destruct (update_prompt_cases lt p) as [-> | ->]; [done|].
        apply for_each_inv; [|done]. intros pos q.
        apply prompt_position_no_text. }
      destruct Hend as (Hwf' & Htk & Hfree').
      split; [done|]. rewrite Htk. done.
    - intros p [Hwf Hfree].
      destruct (pop_preserves p Hwf) as [Hwf' (_ & _ & Htk & _)].
      split; [done|]. rewrite Htk. intros Hnone.
      destruct (Hfree Hnone) as [Hsample Hprompt].
      pose proof (pop_only_buffer p) as Honly.
      split; [by rewrite Honly|].
      unfold pop_prompt_logprobs. unfold_method.
      destruct (prompt_logprobs p) as [[|x buf]|] eqn:Hbuf; simpl;
        rewrite ?Hbuf; try done.
      intros buf' [= <-]. constructor. }
  destruct Hinv as [_ Hfree]. destruct (Hfree Hnone) as [Hsample Hprompt].
  split.
  - intros l rec i e Hl Hin.
    by apply (proj1 (Forall_forall _ l) (Hsample l Hl) rec Hin).
  - intros buf rec i e Hbuf Hin.
    pose proof (proj1 (Forall_forall _ buf) (Hprompt buf Hbuf) _ Hin) as Hrec.
    by apply Hrec.
Qed.

Lemma no_tokenizer_no_decoded_token_witness :
  let p := (update_from_output
              (mkEngineCoreOutput (Some (demo_step3 1)) (Some demo_chunk))
              demo_processor).2 in
  (∀ l rec i e,
     logprobs p = Some l → rec ∈ l → rec !! i = Some e →
     decoded_token e = None)
  ∧ (∀ buf rec i e,
       prompt_logprobs p = Some buf → Some rec ∈ buf → rec !! i = Some e →
       decoded_token e = None).
Proof.
  intros p. apply (no_tokenizer_no_decoded_token p).
  - apply reach_update. apply (reach_new None demo_request). reflexivity.
  - reflexivity.
Defined.

Section prompt_chunks.

Lemma set_prompt_logprobs_twice (a b : option (list (option (gmap Z Logprob))))
    (p : LogprobsProcessor) :
  set_prompt_logprobs a (set_prompt_logprobs b p) = set_prompt_logprobs a p.
Proof. done. Qed.

(** One position of the loop, on a processor with prompt logprobs. *)
Lemma prompt_position_step (decoded : option (list string)) (k : nat)
    (rows : list (list Q)) (ids : list (list Z)) (ranks : list Z)
    (pos : nat) (p : LogprobsProcessor)
    (buf : list (option (gmap Z Logprob))) (n : Z) :
  prompt_logprobs p = Some buf → num_prompt_logprobs p = Some n →
  prompt_position decoded k rows ids ranks pos p
  = match position_record decoded k rows ids ranks n pos with
    | Some r => (Ok tt, set_prompt_logprobs (Some (buf ++ [Some r])) p)
    | None => (Raise IndexError, p)
    end.
Proof.
  intros Hbuf Hn. unfold prompt_position, position_record, index.
  unfold_method. rewrite Hbuf.
  destruct (rows !! pos) as [lps|]; [|done]. simpl.
  destruct (ids !! pos) as [tids|]; [|done]. simpl.
  destruct (ranks !! pos) as [rank|]; [|done]. simpl.
  by rewrite Hn.
Qed.

(** The loop over the positions: the records up to the first position
    without a row are appended, and the loop raises [IndexError] there. *)
Lemma prompt_positions_run (decoded : option (list string)) (k : nat)
    (rows : list (list Q)) (ids : list (list Z)) (ranks : list Z) (n : Z)
    (poss : list nat) :
  ∀ (p : LogprobsProcessor) (buf : list (option (gmap Z Logprob))),
  prompt_logprobs p = Some buf → num_prompt_logprobs p = Some n →
  for_each (prompt_position decoded k rows ids ranks) poss p
  = (if forallb
          (λ pos, bool_decide
                    (is_Some (position_record decoded k rows ids ranks n pos)))
          poss
     then Ok tt else Raise IndexError,
     set_prompt_logprobs
       (Some (buf ++ (Some <$> records_until_error
                        (position_record decoded k rows ids ranks n) poss)))
       p).
Proof.
  induction poss as [|pos poss IH]; intros p buf Hbuf Hn; simpl.
  - rewrite app_nil_r, <- Hbuf. by rewrite set_prompt_logprobs_same.
  - unfold_method.
    rewrite (prompt_position_step _ _ _ _ _ _ _ buf n) by done.
    destruct (position_record decoded k rows ids ranks n pos) as [r|]; simpl.
    + fold (@mbind M _). unfold_method.
      rewrite (IH _ (buf ++ [Some r])) by done.
      by rewrite set_prompt_logprobs_twice, <- app_assoc.
    + rewrite app_nil_r, <- Hbuf. by rewrite set_prompt_logprobs_same.
Qed.

Lemma update_prompt_enabled (lt : LogprobsTensors) (p : LogprobsProcessor) :
  is_Some (prompt_logprobs p) → is_Some (num_prompt_logprobs p) →
  _update_prompt_logprobs lt p
  = for_each
      (prompt_position
         (match tokenizer p with
          | None => None
          | Some tk => Some (tk (concat (lt_logprob_token_ids lt)))
          end)
         (shape (lt_logprobs lt)).2 (lt_logprobs lt)
         (lt_logprob_token_ids lt) (selected_token_ranks lt))
      (seq 0 (shape (lt_logprobs lt)).1) p.
Proof.
  intros Hbuf Hn. unfold _update_prompt_logprobs. unfold_method.
  by rewrite !bool_decide_eq_true_2 by done.
Qed.

(** [_update_prompt_logprobs] on a processor with prompt logprobs. *)
Lemma update_prompt_run (lt : LogprobsTensors) (p : LogprobsProcessor)
    (buf : list (option (gmap Z Logprob))) (n : Z) :
  prompt_logprobs p = Some buf → num_prompt_logprobs p = Some n →
  (_update_prompt_logprobs lt p).2
  = set_prompt_logprobs
      (Some (buf ++ (Some <$> chunk_records (tokenizer p) n lt))) p.
Proof.
  intros Hbuf Hn.
  rewrite update_prompt_enabled by (by rewrite ?Hbuf, ?Hn).
  by rewrite (prompt_positions_run _ _ _ _ _ n _ _ buf).
Qed.

End prompt_chunks.

Section chunk_shapes.

Lemma position_record_is_Some (decoded : option (list string)) (k : nat)
    (rows : list (list Q)) (ids : list (list Z)) (ranks : list Z) (n : Z)
    (pos : nat) :
  is_Some (position_record decoded k rows ids ranks n pos)
  ↔ pos < length rows `min` (length ids `min` length ranks).
Proof.
  unfold position_record. split.
  - intros [r Hr].
    destruct (rows !! pos) as [lps|] eqn:H1; [|done]. simpl in Hr.
    destruct (ids !! pos) as [tids|] eqn:H2; [|done]. simpl in Hr.
    destruct (ranks !! pos) as [rank|] eqn:H3; [|done].
    apply lookup_lt_Some in H1, H2, H3. lia.
  - intros Hlt.
    destruct (lookup_lt_is_Some_2 rows pos) as [lps ->]; [lia|].
    destruct (lookup_lt_is_Some_2 ids pos) as [tids ->]; [lia|].
    destruct (lookup_lt_is_Some_2 ranks pos) as [rank ->]; [lia|].
    simpl. by eexists.
Qed.

(** The records of a run of positions, when the positions below [m], and
    no other, have a record. *)
Lemma records_until_error_seq (f : nat → option (gmap Z Logprob))
    (m len : nat) :
  (∀ pos, is_Some (f pos) ↔ pos < m) →
  ∀ a, a ≤ m →
  length (records_until_error f (seq a len)) = len `min` (m - a)
  ∧ (forallb (λ pos, bool_decide (is_Some (f pos))) (seq a len) = true
     ↔ a + len ≤ m)
  ∧ ∀ i, i < len `min` (m - a) →
         records_until_error f (seq a len) !! i = f (a + i).
Proof.
  intros Hf. induction len as [|len IH]; intros a Ha;
    cbn [seq records_until_error forallb].
  - split_and!; [done|split; [lia|done]|intros i Hi; lia].
  - destruct (f a) as [r|] eqn:Hfa.
    + assert (Hlt : a < m) by (apply Hf; by eauto).
      destruct (IH (S a)) as (Hlen & Hall & Hlook); [lia|].
      rewrite bool_decide_eq_true_2 by (by eauto).
      cbn [andb length]. split_and!.
      * rewrite Hlen. lia.
      * rewrite Hall. lia.
      * intros [|i] Hi; cbn [lookup list_lookup].
        -- by rewrite Nat.add_0_r.
        -- rewrite Hlook by lia. f_equal. lia.
    + assert (Hge : ¬ a < m).
      { intros Hlt. apply Hf in Hlt as [r Hr]. congruence. }
      rewrite bool_decide_eq_false_2 by (by intros [? ?]).
      cbn [andb length].
      split_and!; [lia|split; [done|lia]|intros i Hi; lia].
Qed.

End chunk_shapes.

(** X12: a prompt update on a processor with prompt logprobs appends one
    record for each position that the three tensors all have a row for, in
    order, each built from the rows of its position, and nothing else
    changes.  It returns when the token ids and the ranks have a row for
    every row of logprobs; when one of them is shorter it raises
    [IndexError], after the records of the positions before were
    appended. *)
Theorem prompt_update_appends_common_positions (lt : LogprobsTensors)
    (p : LogprobsProcessor) (buf : list (option (gmap Z Logprob))) (n : Z) :
  prompt_logprobs p = Some buf → num_prompt_logprobs p = Some n →
  let rows := lt_logprobs lt in
  let ids := lt_logprob_token_ids lt in
  let ranks := selected_token_ranks lt in
  let m := length rows `min` (length ids `min` length ranks) in
  let recs := chunk_records (tokenizer p) n lt in
  _update_prompt_logprobs lt p
  = (if decide (length rows ≤ m) then Ok tt else Raise IndexError,
     set_prompt_logprobs (Some (buf ++ (Some <$> recs))) p)
  ∧ length recs = m
  ∧ ∀ pos, pos < m →
      ∃ lps tids rank,
        rows !! pos = Some lps ∧ ids !! pos = Some tids
        ∧ ranks !! pos = Some rank
        ∧ recs !! pos
          = Some (_make_logprob_dict lps tids
                    (decoded_for_pos
                       (match tokenizer p with
                        | None => None
                        | Some tk => Some (tk (concat ids))
                        end)
                       (shape rows).2 pos)
                    rank n).
Proof.
  intros Hbuf Hn rows ids ranks m recs.
  set (decoded := match tokenizer p with
                  | None => None
                  | Some tk => Some (tk (concat ids))
                  end).
  set (f := position_record decoded (shape rows).2 rows ids ranks n).
  destruct (records_until_error_seq f m (length rows)
              (position_record_is_Some _ _ _ _ _ _) 0) as (Hlen & Hall & Hlook);
    [lia|].
  rewrite Nat.sub_0_r in Hlen, Hlook.
  assert (Hm : length rows `min` m = m) by lia.
  rewrite Hm in Hlen, Hlook.
  split_and!.
  - rewrite update_prompt_enabled by (by rewrite ?Hbuf, ?Hn).
    rewrite (prompt_positions_run _ _ _ _ _ n _ _ buf) by done.
    fold rows ids ranks decoded f. f_equal.
    change (shape rows).1 with (length rows).
    destruct (decide (length rows ≤ m)) as [Hle|Hgt].
    + by rewrite (proj2 Hall Hle).
    + destruct (forallb _ _); [|done]. pose proof (proj1 Hall eq_refl). lia.
  - exact Hlen.
  - intros pos Hpos. specialize (Hlook pos Hpos). simpl in Hlook.
    destruct (lookup_lt_is_Some_2 rows pos) as [lps Hr]; [lia|].
    destruct (lookup_lt_is_Some_2 ids pos) as [tids Hi]; [lia|].
    destruct (lookup_lt_is_Some_2 ranks pos) as [rank Hk]; [lia|].
    exists lps, tids, rank. split_and!; try done.
    unfold recs, chunk_records. fold rows ids ranks decoded f.
    change (shape rows).1 with (length rows).
    rewrite Hlook. unfold f, position_record. by rewrite Hr, Hi, Hk.
Qed.

Lemma prompt_update_appends_common_positions_witness :
  let lt := mkLogprobsTensors [[5; 6]%Z] [[-0.5; -1]; [-0.25; -2]]%Q
              [3; 4]%Z in
  let p := demo_processor in
  let rows := lt_logprobs lt in
  let ids := lt_logprob_token_ids lt in
  let ranks := selected_token_ranks lt in
  let m := length rows `min` (length ids `min` length ranks) in
  let recs := chunk_records (tokenizer p) 1 lt in
  _update_prompt_logprobs lt p
  = (if decide (length rows ≤ m) then Ok tt else Raise IndexError,
     set_prompt_logprobs (Some ([None] ++ (Some <$> recs))) p)
  ∧ length recs = m
  ∧ ∀ pos, pos < m →
      ∃ lps tids rank,
        rows !! pos = Some lps ∧ ids !! pos = Some tids
        ∧ ranks !! pos = Some rank
        ∧ recs !! pos
          = Some (_make_logprob_dict lps tids
                    (decoded_for_pos
                       (match tokenizer p with
                        | None => None
                        | Some tk => Some (tk (concat ids))
                        end)
                       (shape rows).2 pos)
                    rank 1).
Proof.
  intros lt p.
  apply (prompt_update_appends_common_positions lt p [None] 1%Z);
    reflexivity.
Defined.

(** X13: what a request delivers does not depend on when the buffer is
    drained.  On a processor with prompt logprobs, over every sequence of
    updates and drains, the results of the drains followed by the buffer
    are the buffer at the start followed by the records of the updates, in
    order: every record is delivered once. *)
Theorem drains_deliver_every_record_once (ops : list prompt_op)
    (p : LogprobsProcessor) (buf : list (option (gmap Z Logprob))) (n : Z) :
  prompt_logprobs p = Some buf → num_prompt_logprobs p = Some n →
  prompt_stream ops p = buf ++ appended_records (tokenizer p) n ops.
Proof.
  revert p buf. induction ops as [|[lt|] ops IH]; intros p buf Hbuf Hn.
  - simpl. by rewrite Hbuf, app_nil_r.
  - simpl. rewrite (update_prompt_run lt p buf n) by done.
    rewrite (IH _ (buf ++ (Some <$> chunk_records (tokenizer p) n lt)))
      by done.
    by rewrite <- app_assoc.
  - simpl. rewrite (pop_enabled p buf Hbuf).
    by rewrite (IH _ []).
Qed.

Lemma drains_deliver_every_record_once_witness :
  prompt_stream [PromptUpdate demo_chunk; PromptDrain;
                 PromptUpdate demo_chunk; PromptDrain] demo_processor
  = [None] ++ appended_records (tokenizer demo_processor) 1
                [PromptUpdate demo_chunk; PromptDrain;
                 PromptUpdate demo_chunk; PromptDrain].
Proof.
  apply (drains_deliver_every_record_once _ demo_processor [None] 1%Z);
    reflexivity.
Defined.

Section history_count.

Lemma sample_token_history_counts (it : Z * list Q * list Z)
    (p : LogprobsProcessor) :
  wf p ∧ history_counts_records p →
  wf (sample_token it p).2 ∧ history_counts_records (sample_token it p).2.
Proof.
  intros [Hwf Hcount].
  split; [by apply (sample_token_preserves it p)|].
  destruct it as [[rank lps] ids].
  destruct lps as [|lp alts]; [done|].
  destruct (cumulative_logprob p) as [c|] eqn:Hc; cycle 1.
  { unfold sample_token. unfold_method. simpl. by rewrite Hc. }
  pose proof Hwf as (_ & (Hs1 & Hs2) & _).
  destruct (proj1 Hs2) as [n Hn]; [by rewrite Hc|].
  destruct (proj2 Hs1) as [l Hl]; [by rewrite Hn|].
  destruct (sample_token_step rank lp alts ids p l c n Hwf Hl Hc Hn)
    as (Hl' & _ & Hh' & _).
  intros h' l' Hh'' Hl''. rewrite Hl' in Hl''. injection Hl'' as <-.
  rewrite Hh' in Hh''. destruct (conf_list p) as [h|] eqn:Hh; [|done].
  injection Hh'' as <-. rewrite !length_app. simpl.
  by rewrite (Hcount h l).
Qed.

Lemma reachable_history_counts (p : LogprobsProcessor) :
  reachable p → history_counts_records p.
Proof.
  intros Hreach.
  apply (reachable_inv (λ p, wf p ∧ history_counts_records p));
    [| | | |done].
  - intros tk req p0 Hnew. split; [by eapply from_new_request_wf|].
    intros h l Hh Hl. unfold from_new_request in Hnew.
    destruct (sampling_params req) as [[nl npl ea]|]; [|done].
    simpl in Hnew.
    destruct ea as [[en ws th]|]; simpl in Hnew;
      [destruct (default false en);
       [destruct (deque_new _); [|done]|]|];
      injection Hnew as <-; simpl in *; try done.
    injection Hh as <-. destruct nl; [|done]. by injection Hl as <-.
  - intros ll p0 Hp0. destruct (update_sample_cases ll p0) as [-> | ->];
      [done|]. by apply for_each_inv; [apply sample_token_history_counts|].
  - intros lt p0 [Hwf Hcount]. split; [by apply update_prompt_preserves|].
    pose proof (update_prompt_only_buffer lt p0) as Honly.
    by rewrite Honly.
  - intros p0 [Hwf Hcount]. split; [by apply pop_preserves|].
    pose proof (pop_only_buffer p0) as Honly. by rewrite Honly.
Qed.

End history_count.

(** X14: with sample logprobs and the confidence window enabled, the
    history [conf_list] has one confidence for every sampled token
    recorded in [logprobs], and the window holds the confidences of the
    last [conf_group_size] of these tokens, or of all of them while there
    are fewer. *)
Theorem one_confidence_per_sampled_token (p : LogprobsProcessor)
    (h : list Q) (l : list (gmap Z Logprob)) (d : deque) :
  reachable p →
  conf_list p = Some h → logprobs p = Some l → conf_group_list p = Some d →
  length h = length l
  ∧ items d = drop (length l - Z.to_nat (conf_group_size p)) h
  ∧ length (items d) = length l `min` Z.to_nat (conf_group_size p).
Proof.
  intros Hreach Hh Hl Hd.
  pose proof (reachable_history_counts p Hreach h l Hh Hl) as Hcount.
  pose proof (reachable_history_tail p Hreach h d Hh Hd) as Htail.
  rewrite Hcount in Htail. split_and!; [done|done|].
  rewrite Htail, length_drop. lia.
Qed.

Lemma one_confidence_per_sampled_token_witness :
  let p := (_update_sample_logprobs (demo_step 0.1)
              (_update_sample_logprobs (demo_step3 1) demo_processor).2).2 in
  let h := default [] (conf_list p) in
  let l := default [] (logprobs p) in
  let d := default (mkDeque 0 []) (conf_group_list p) in
  length h = length l
  ∧ items d = drop (length l - Z.to_nat (conf_group_size p)) h
  ∧ length (items d) = length l `min` Z.to_nat (conf_group_size p).
Proof.
  intros p h l d. apply (one_confidence_per_sampled_token p h l d).
  - apply reach_sample, reach_sample.
    apply (reach_new None demo_request). reflexivity.
  - vm_compute. reflexivity.
  - vm_compute. reflexivity.
  - vm_compute. reflexivity.
Defined.

(** X15: with sample logprobs and the confidence window enabled,
    [check_conf_stop] returns [False] as long as fewer than
    [conf_group_size] tokens were sampled, whatever their logprobs. *)
Theorem no_stop_before_window_size_tokens (p : LogprobsProcessor)
    (l : list (gmap Z Logprob)) :
  reachable p → is_Some (conf_list p) → logprobs p = Some l →
  (Z.of_nat (length l) < conf_group_size p)%Z →
  check_conf_stop p = Ok false.
Proof.
  intros Hreach [h Hh] Hl Hlt.
  apply reachable_wf in Hreach as Hwf.
  destruct Hwf as ((Hcl & _) & _).
  destruct (proj1 Hcl) as [d Hd]; [by eauto|].
  pose proof (reachable_history_counts p Hreach h l Hh Hl) as Hcount.
  pose proof (reachable_history_tail p Hreach h d Hh Hd) as Htail.
  unfold check_conf_stop. rewrite Hd.
  destruct (decide (deque_len d = 0)%Z) as [|Hnz]; [done|].
  destruct (decide (conf_group_size p ≤ deque_len d)%Z) as [Hfull|];
    [|done].
  exfalso. unfold deque_len in Hfull. rewrite Htail, length_drop in Hfull.
  lia.
Qed.

Lemma no_stop_before_window_size_tokens_witness :
  let p := (_update_sample_logprobs (demo_step 0.1)
              (_update_sample_logprobs (demo_step 0.1) demo_processor).2).2 in
  check_conf_stop p = Ok false.
Proof.
  intros p.
  apply (no_stop_before_window_size_tokens p (default [] (logprobs p))).
  - apply reach_sample, reach_sample.
    apply (reach_new None demo_request). reflexivity.
  - exists (default [] (conf_list p)). vm_compute. reflexivity.
  - vm_compute. reflexivity.
  - vm_compute. reflexivity.
Defined.

Section flattening.

(** The tokens of a position, cut out of the flattened rows. *)
Lemma slice_concat_uniform {A : Type} (k : nat) (rows : list (list A)) :
  Forall (λ r, length r = k) rows →
  ∀ pos row, rows !! pos = Some row →
  slice (concat rows) (pos * k) (pos * k + k) = row.
Proof.
  unfold slice. intros Hk. induction Hk as [|r rows Hr Hrows IH];
    intros pos row Hpos; [done|].
  replace (pos * k + k - pos * k) with k by lia.
  destruct pos as [|pos]; simpl in *.
  - injection Hpos as <-. by apply take_app_length'.
  - rewrite drop_app_add' by done.
    specialize (IH pos row Hpos).
    by replace (pos * k + k - pos * k) with k in IH by lia.
Qed.

End flattening.

(** X16: decoding a whole chunk at once gives every position the tokens of
    its own row.  With a tokenizer that decodes a list of ids token by
    token, and token ids of as many columns as the logprobs, the record of
    a position of a prefill chunk is the record that the sample side builds
    from the same logprobs, token ids and rank. *)
Theorem chunk_record_is_row_record (tk : AnyTokenizer) (f : Z → string)
    (rows : list (list Q)) (ids : list (list Z)) (ranks : list Z) (n : Z)
    (pos : nat) (lps : list Q) (tids : list Z) (rank : Z) :
  (∀ l, tk l = f <$> l) →
  Forall (λ r, length r = (shape rows).2) ids →
  rows !! pos = Some lps → ids !! pos = Some tids →
  ranks !! pos = Some rank →
  position_record (Some (tk (concat ids))) (shape rows).2 rows ids ranks n pos
  = Some (sample_record (Some tk) n (rank, lps, tids)).
Proof.
  intros Htk Hids Hr Hi Hk. unfold position_record, sample_record.
  set (k := (shape rows).2) in *.
  rewrite Hr, Hi, Hk. cbn [mbind option_bind fst snd].
  unfold decoded_for_pos, decode_or_nones. do 3 f_equal.
  rewrite !Htk. unfold slice. rewrite <- fmap_drop, <- fmap_take. f_equal.
  by apply (slice_concat_uniform k ids).
Qed.

Lemma chunk_record_is_row_record_witness :
  let tk : AnyTokenizer := fmap (λ i, if decide (i = 5)%Z then "a" else "b") in
  position_record (Some (tk (concat [[5; 6]; [6; 5]]%Z)))
    (shape [[-0.5; -1]; [-0.25; -2]]%Q).2
    [[-0.5; -1]; [-0.25; -2]]%Q [[5; 6]; [6; 5]]%Z [3; 4]%Z 1 1
  = Some (sample_record (Some tk) 1 (4%Z, [-0.25; -2]%Q, [6; 5]%Z)).
Proof.
  intros tk.
  apply (chunk_record_is_row_record tk
           (λ i, if decide (i = 5)%Z then "a" else "b")).
  - reflexivity.
  - repeat constructor.
  - reflexivity.
  - reflexivity.
  - reflexivity.
Defined.

(** X17: on every processor a request can be in, each feature is either
    enabled with all its fields present or disabled with all of them
    absent: the sample logprobs ([num_logprobs], [logprobs],
    [cumulative_logprob]); the prompt logprobs ([num_prompt_logprobs],
    [prompt_logprobs]); the confidence window ([conf_list],
    [conf_group_list], [conf_threshold]), whose deque is bounded by
    [conf_group_size], which is not negative. *)
Theorem features_are_bundled (p : LogprobsProcessor) :
  reachable p →
  ((is_Some (num_logprobs p) ∧ is_Some (logprobs p)
    ∧ is_Some (cumulative_logprob p))
   ∨ (num_logprobs p = None ∧ logprobs p = None
      ∧ cumulative_logprob p = None))
  ∧ ((is_Some (num_prompt_logprobs p) ∧ is_Some (prompt_logprobs p))
     ∨ (num_prompt_logprobs p = None ∧ prompt_logprobs p = None))
  ∧ ((∃ h d t, conf_list p = Some h ∧ conf_group_list p = Some d
               ∧ conf_threshold p = Some t
               ∧ maxlen d = conf_group_size p
               ∧ (0 ≤ conf_group_size p)%Z)
     ∨ (conf_list p = None ∧ conf_group_list p = None
        ∧ conf_threshold p = None)).
Proof.
  intros Hreach.
  apply reachable_wf in Hreach
    as ((Hcl & Hthr & Hwin) & (Hl & Hc) & Hprompt).
  split_and!.
  - destruct (num_logprobs p) as [n|].
    + left. split_and!; [by eauto|apply Hl; by eauto|apply Hc; by eauto].
    + right. split; [done|].
      destruct (logprobs p) as [l|].
      { destruct (proj1 Hl) as [? ?]; [by eauto|done]. }
      destruct (cumulative_logprob p) as [c|]; [|done].
      destruct (proj1 Hc) as [? ?]; [by eauto|done].
  - unfold prompt_wf in Hprompt.
    destruct (num_prompt_logprobs p) as [n|].
    + left. split; [by eauto|apply Hprompt; by eauto].
    + right. split; [done|].
      destruct (prompt_logprobs p) as [buf|]; [|done].
      destruct (proj1 Hprompt) as [? ?]; [by eauto|done].
  - destruct (conf_group_list p) as [d|] eqn:Hd.
    + left. destruct (proj2 Hcl) as [h Hh]; [by eauto|].
      destruct (proj2 Hthr) as [t Ht]; [by eauto|].
      destruct (Hwin d eq_refl) as (Hmax & Hlen & _).
      exists h, d, t. split_and!; try done. unfold deque_len in Hlen. lia.
    + right. split_and!; [|done|].
      * destruct (conf_list p) as [h|]; [|done].
        destruct (proj1 Hcl) as [? ?]; [by eauto|done].
      * destruct (conf_threshold p) as [t|]; [|done].
        destruct (proj1 Hthr) as [? ?]; [by eauto|done].
Qed.

Lemma features_are_bundled_witness :
  let p := (update_from_output
              (mkEngineCoreOutput (Some (demo_step3 1)) (Some demo_chunk))
              demo_processor).2 in
  ((is_Some (num_logprobs p) ∧ is_Some (logprobs p)
    ∧ is_Some (cumulative_logprob p))
   ∨ (num_logprobs p = None ∧ logprobs p = None
      ∧ cumulative_logprob p = None))
  ∧ ((is_Some (num_prompt_logprobs p) ∧ is_Some (prompt_logprobs p))
     ∨ (num_prompt_logprobs p = None ∧ prompt_logprobs p = None))
  ∧ ((∃ h d t, conf_list p = Some h ∧ conf_group_list p = Some d
               ∧ conf_threshold p = Some t
               ∧ maxlen d = conf_group_size p
               ∧ (0 ≤ conf_group_size p)%Z)
     ∨ (conf_list p = None ∧ conf_group_list p = None
        ∧ conf_threshold p = None)).
Proof.
  intros p. apply (features_are_bundled p).
  apply reach_update. apply (reach_new None demo_request). reflexivity.
Defined.


Section nonnegative.

Lemma sum_from_nonpositive (l : list Q) (a : Q) :
  Forall (λ x, x <= 0)%Q l → (a <= 0)%Q → (foldl Qplus a l <= 0)%Q.
Proof.
  intros Hl. revert a. induction Hl as [|x l Hx Hl IH]; intros a Ha; simpl.
  - done.
  - apply IH. rewrite <- (Qplus_0_r 0). by apply Qplus_le_compat.
Qed.

End nonnegative.

(** X19: the confidence of a token whose logprobs are all at most 0, as
    logprobs are, is not negative. *)
Theorem confidence_not_negative (lps : list Q) :
  Forall (λ x, x <= 0)%Q lps → (0 <= confidence lps)%Q.
Proof.
  intros Hl. unfold confidence, new_conf_of.
  destruct (decide (1 < length lps)) as [Hlen|_]; [|done].
  rewrite truediv_len by (rewrite length_drop; lia).
  assert (Hsum : (sum (drop 1 lps) <= 0)%Q).
  { apply sum_from_nonpositive; [|done]. by apply Forall_drop. }
  unfold Qdiv. apply Qmult_le_0_compat.
  - apply (Qopp_le_compat _ 0) in Hsum. exact Hsum.
  - apply Qinv_le_0_compat. unfold Qle. simpl. lia.
Qed.

Lemma confidence_not_negative_witness :
  (0 <= confidence [-0.5; -1; -2])%Q.
Proof.
  apply (confidence_not_negative [-0.5; -1; -2]%Q).
  repeat constructor; discriminate.
Defined.

Section independence.

Lemma update_conf_set_prompt (b : option (list (option (gmap Z Logprob))))
    (lps : list Q) (p : LogprobsProcessor) :
  update_conf lps (set_prompt_logprobs b p)
  = ((update_conf lps p).1, set_prompt_logprobs b (update_conf lps p).2).
Proof.
  unfold update_conf. unfold_method. simpl.
  destruct (conf_list p) as [h|]; [|done].
  destruct (new_conf_of lps) as [c|e]; [|done].
  simpl. destruct (conf_group_list p) as [d|]; [|done].
  destruct (decide _); simpl; [done|].
  by destruct (deque_popleft d) as [[x d']|e].
Qed.

Lemma sample_token_set_prompt (b : option (list (option (gmap Z Logprob))))
    (it : Z * list Q * list Z) (p : LogprobsProcessor) :
  sample_token it (set_prompt_logprobs b p)
  = ((sample_token it p).1, set_prompt_logprobs b (sample_token it p).2).
Proof.
  destruct it as [[rank lps] ids]. unfold sample_token. unfold_method.
  simpl. destruct (index lps 0) as [lp|e]; [|done].
  destruct (cumulative_logprob p) as [c|]; [|done].
  simpl. destruct (logprobs p) as [l|]; [|done].
  destruct (num_logprobs p) as [n|]; [|done].
  simpl.
  match goal with
  | |- update_conf _ (set_logprobs ?x (set_cumulative_logprob ?y _)) = _ =>
      exact (update_conf_set_prompt b lps
               (set_logprobs x (set_cumulative_logprob y p)))
  end.
Qed.

Lemma sample_tokens_set_prompt
    (b : option (list (option (gmap Z Logprob))))
    (its : list (Z * list Q * list Z)) (p : LogprobsProcessor) :
  for_each sample_token its (set_prompt_logprobs b p)
  = ((for_each sample_token its p).1,
     set_prompt_logprobs b (for_each sample_token its p).2).
Proof.
  revert p. induction its as [|it its IH]; intros p; [done|].
  simpl. unfold_method. rewrite sample_token_set_prompt.
  destruct (sample_token it p) as [[[]|e] q]; simpl; [|done]. apply IH.
Qed.

(** A sample update does not read the prompt buffer. *)
Lemma update_sample_set_prompt
    (b : option (list (option (gmap Z Logprob))))
    (ll : LogprobsLists) (p : LogprobsProcessor) :
  _update_sample_logprobs ll (set_prompt_logprobs b p)
  = ((_update_sample_logprobs ll p).1,
     set_prompt_logprobs b (_update_sample_logprobs ll p).2).
Proof.
  unfold _update_sample_logprobs. unfold_method. simpl.
  destruct (bool_decide (is_Some (num_logprobs p))); [|done].
  destruct (bool_decide (is_Some (logprobs p))); [|done].
  destruct (bool_decide (is_Some (cumulative_logprob p))); [|done].
  apply sample_tokens_set_prompt.
Qed.

(** The outcome of a prompt update, and the processor it leaves, from the
    buffer, the tokenizer and the number of prompt logprobs. *)
Lemma update_prompt_full (lt : LogprobsTensors) (p : LogprobsProcessor) :
  _update_prompt_logprobs lt p
  = match prompt_logprobs p, num_prompt_logprobs p with
    | Some buf, Some n =>
        ((for_each
            (prompt_position
               (match tokenizer p with
                | None => None
                | Some tk => Some (tk (concat (lt_logprob_token_ids lt)))
                end)
               (shape (lt_logprobs lt)).2 (lt_logprobs lt)
               (lt_logprob_token_ids lt) (selected_token_ranks lt))
            (seq 0 (shape (lt_logprobs lt)).1) p).1,
         set_prompt_logprobs
           (Some (buf ++ (Some <$> chunk_records (tokenizer p) n lt))) p)
    | _, _ => (Raise AssertionError, p)
    end.
Proof.
  destruct (prompt_logprobs p) as [buf|] eqn:Hbuf;
    destruct (num_prompt_logprobs p) as [n|] eqn:Hn.
  - rewrite update_prompt_enabled by (by rewrite ?Hbuf, ?Hn).
    by rewrite (prompt_positions_run _ _ _ _ _ n _ _ buf).
  - unfold _update_prompt_logprobs. unfold_method.
    rewrite bool_decide_eq_false_2; [done|]. rewrite Hn. by intros [? ?].
  - unfold _update_prompt_logprobs. unfold_method.
    destruct (bool_decide (is_Some (num_prompt_logprobs p))); [|done].
    rewrite bool_decide_eq_false_2; [done|]. rewrite Hbuf. by intros [? ?].
  - unfold _update_prompt_logprobs. unfold_method.
    rewrite bool_decide_eq_false_2; [done|]. rewrite Hn. by intros [? ?].
Qed.

End independence.

(** X20: the two parts of an output are independent: the sample update
    and the prompt update leave the same processor in either order, and
    each has the outcome it has on its own. *)
Theorem sample_and_prompt_updates_commute (ll : LogprobsLists)
    (lt : LogprobsTensors) (p : LogprobsProcessor) :
  let a := _update_prompt_logprobs lt (_update_sample_logprobs ll p).2 in
  let b := _update_sample_logprobs ll (_update_prompt_logprobs lt p).2 in
  a.2 = b.2
  ∧ a.1 = (_update_prompt_logprobs lt p).1
  ∧ b.1 = (_update_sample_logprobs ll p).1.
Proof.
  intros a b. subst a b.
  destruct (update_sample_keeps_prompt_side ll p)
    as [Hbuf (_ & _ & Htk & _ & Hn)].
  set (q := (_update_sample_logprobs ll p).2) in *.
  rewrite (update_prompt_full lt q), (update_prompt_full lt p).
  rewrite Hbuf, Hn, Htk.
  destruct (prompt_logprobs p) as [buf|] eqn:Hp;
    destruct (num_prompt_logprobs p) as [n|] eqn:Hnp;
    cbn [fst snd]; try done.
  rewrite update_sample_set_prompt. cbn [fst snd]. fold q.
  split_and!; [done| |done].
  rewrite (prompt_positions_run _ _ _ _ _ n _ q buf) by congruence.
  by rewrite (prompt_positions_run _ _ _ _ _ n _ p buf).
Qed.

(** X21: an update without anything to go through returns and leaves the
    processor as it is: a sample step one of whose three sequences is
    empty, on a processor with sample logprobs; a prefill chunk without a
    row of logprobs, on a processor with prompt logprobs. *)
Theorem empty_updates_change_nothing (p : LogprobsProcessor)
    (ll : LogprobsLists) (lt : LogprobsTensors) :
  reachable p →
  (is_Some (num_logprobs p) →
   logprob_token_ids ll = [] ∨ ll_logprobs ll = []
   ∨ sampled_token_ranks ll = [] →
   _update_sample_logprobs ll p = (Ok tt, p))
  ∧ (is_Some (num_prompt_logprobs p) → lt_logprobs lt = [] →
     _update_prompt_logprobs lt p = (Ok tt, p)).
Proof.
  intros Hreach. apply reachable_wf in Hreach as Hwf. split.
  - intros Hn Hempty. destruct (sample_enabled p Hwf Hn) as [Hl Hc].
    rewrite update_sample_enabled by done.
    assert (Htoks : step_tokens ll = []).
    { unfold step_tokens. destruct ll as [ids lps ranks]. simpl in *.
      destruct Hempty as [-> | [-> | ->]].
      - by destruct ranks, lps.
      - by destruct ranks.
      - done. }
    by rewrite Htoks.
  - intros Hn Hrows. destruct Hwf as (_ & _ & Hprompt).
    rewrite update_prompt_enabled by first [done | by apply Hprompt].
    by rewrite Hrows.
Qed.

Lemma empty_updates_change_nothing_witness :
  _update_sample_logprobs (mkLogprobsLists [[7; 8]%Z] [] [1%Z])
    demo_processor = (Ok tt, demo_processor)
  ∧ _update_prompt_logprobs (mkLogprobsTensors [[5; 6]%Z] [] [3%Z])
      demo_processor = (Ok tt, demo_processor).
Proof.
  destruct (empty_updates_change_nothing demo_processor
              (mkLogprobsLists [[7; 8]%Z] [] [1%Z])
              (mkLogprobsTensors [[5; 6]%Z] [] [3%Z])) as [Hs Hp].
  - apply (reach_new None demo_request). reflexivity.
  - split.
    + apply Hs; [by eexists|]. right. by left.
    + apply Hp; [by eexists|done].
Defined.

(** X22: [update_from_output] runs the sample part first.  When the
    sample part raises, the output raises the same exception, the prompt
    chunk of the output is not looked at, and the prompt buffer stays as it
    was; when it returns, the outcome and the processor are those of the
    prompt part run after it. *)
Theorem output_runs_sample_part_first (out : EngineCoreOutput)
    (ll : LogprobsLists) (lt : LogprobsTensors) (p : LogprobsProcessor) :
  new_logprobs out = Some ll → new_prompt_logprobs_tensors out = Some lt →
  let s := _update_sample_logprobs ll p in
  (∀ e, s.1 = Raise e →
        update_from_output out p = (Raise e, s.2)
        ∧ prompt_logprobs (update_from_output out p).2 = prompt_logprobs p)
  ∧ (s.1 = Ok tt →
     update_from_output out p = _update_prompt_logprobs lt s.2).
Proof.
  intros Hs Hp s. unfold update_from_output. rewrite Hs, Hp. split.
  - intros e He. rewrite (bind_snd_raise _ _ _ _ He). split; [done|].
    apply update_sample_keeps_prompt_side.
  - intros Hok. by rewrite (bind_snd_ok _ _ _ _ Hok).
Qed.

Lemma output_runs_sample_part_first_witness :
  let ll := mkLogprobsLists [[7; 8]%Z] [[]] [1%Z] in
  let out := mkEngineCoreOutput (Some ll) (Some demo_chunk) in
  let s := _update_sample_logprobs ll demo_processor in
  (∀ e, s.1 = Raise e →
        update_from_output out demo_processor = (Raise e, s.2)
        ∧ prompt_logprobs (update_from_output out demo_processor).2
          = prompt_logprobs demo_processor)
  ∧ (s.1 = Ok tt →
     update_from_output out demo_processor
     = _update_prompt_logprobs demo_chunk s.2).
Proof.
  intros ll out.
  apply (output_runs_sample_part_first out ll demo_chunk demo_processor);
    reflexivity.
Defined.

(** The embedding on malformed inputs: a chunk whose token ids have fewer
    rows than its logprobs, and an output whose sample part raises. *)
Example prompt_chunk_with_short_token_ids :
  let lt := mkLogprobsTensors [[5; 6]%Z] [[-0.5; -1]; [-0.25; -2]]%Q
              [3; 4]%Z in
  (_update_prompt_logprobs lt demo_processor).1 = Raise IndexError
  ∧ length <$> prompt_logprobs (_update_prompt_logprobs lt demo_processor).2
    = Some 2.
Proof. split; reflexivity. Qed.

Example output_with_failing_sample_part :
  let out := mkEngineCoreOutput
               (Some (mkLogprobsLists [[7; 8]%Z] [[]] [1%Z]))
               (Some demo_chunk) in
  (update_from_output out demo_processor).1 = Raise IndexError
  ∧ prompt_logprobs (update_from_output out demo_processor).2
    = Some [None].
Proof. split; reflexivity. Qed.
